(** * Drawing-Annotation-Tool: a shallow embedding of [annotate.py]

    The tool keeps one session object ([AnnotationTool]) whose mask buffer is
    a 3-channel 8-bit array, edited in place by the mouse callback and stored
    on navigation as a 1-channel 0/1 array.  The embedding follows the source
    method by method.  The numeric-array and graphics routines the script
    calls ([np.stack], [np.where], [cv2.cvtColor], [cv2.circle],
    [cv2.addWeighted], ...) are library code; each is given here by a small
    executable model of its documented behaviour on 8-bit data. *)

From Stdlib Require Import ZArith Lia Bool Ascii String.
From stdpp Require Import base numbers list strings gmap.

Local Open Scope Z_scope.

(** ** Arrays *)

(** An array of [arr_rows] x [arr_cols] elements kept row by row in one
    buffer, the way both numpy (C order) and [cv::Mat] keep it: element
    [(i, j)] sits at offset [i * arr_cols + j]. *)
Record ndarray (A : Type) : Type := NdArray {
  arr_rows : nat;
  arr_cols : nat;
  arr_data : list A
}.
Arguments NdArray {A} _ _ _.
Arguments arr_rows {A} _.
Arguments arr_cols {A} _.
Arguments arr_data {A} _.

(** A BGR pixel of an 8-bit 3-channel array. *)
Definition pixel : Type := (Z * Z * Z)%type.

Definition black : pixel := (0, 0, 0).
Definition white : pixel := (255, 255, 255).

(** [a.shape[:2]] *)
Definition shape {A} (a : ndarray A) : nat * nat := (arr_rows a, arr_cols a).

(** The buffer holds exactly [rows * cols] elements. *)
Definition well_formed {A} (a : ndarray A) : Prop :=
  length (arr_data a) = (arr_rows a * arr_cols a)%nat.

#[global] Instance well_formed_dec {A} (a : ndarray A) : Decision (well_formed a) :=
  decide (length (arr_data a) = (arr_rows a * arr_cols a)%nat).

(** [Mat::empty()] *)
Definition is_empty {A} (a : ndarray A) : bool :=
  (arr_rows a =? 0)%nat || (arr_cols a =? 0)%nat.

(** Element-wise operation, shape kept. *)
Definition amap {A B} (f : A → B) (a : ndarray A) : ndarray B :=
  NdArray (arr_rows a) (arr_cols a) (map f (arr_data a)).

(** Element [(i, j)], for [0 <= i < rows] and [0 <= j < cols]. *)
Definition get_px {A} (a : ndarray A) (i j : Z) : option A :=
  arr_data a !! Z.to_nat (i * Z.of_nat (arr_cols a) + j).

Definition in_bounds {A} (a : ndarray A) (i j : Z) : Prop :=
  0 <= i < Z.of_nat (arr_rows a) ∧ 0 <= j < Z.of_nat (arr_cols a).

(** Wrap-around of unsigned 8-bit arithmetic. *)
Definition u8 (z : Z) : Z := z `mod` 256.

(** [np.zeros(shape, np.uint8)] for a 3-channel shape. *)
Definition np_zeros (sh : nat * nat) : ndarray pixel :=
  NdArray sh.1 sh.2 (replicate (sh.1 * sh.2) black).

(** [np.stack([b] * 3, axis=-1) * 255]: every element is copied to the three
    channels and multiplied by 255 in [uint8]. *)
Definition expand_px (v : Z) : pixel := (u8 (v * 255), u8 (v * 255), u8 (v * 255)).
Definition stack3_times_255 (b : ndarray Z) : ndarray pixel := amap expand_px b.

(** [cv2.cvtColor(m, cv2.COLOR_BGR2GRAY)] on 8-bit data: the fixed-point
    luma  (B*1868 + G*9617 + R*4899 + 2^13) >> 14. *)
Definition bgr2gray (p : pixel) : Z :=
  let '(b, g, r) := p in
  Z.shiftr (b * 1868 + g * 9617 + r * 4899 + Z.shiftl 1 13) 14.

(** [np.where(g > 0, 1, 0).astype(np.uint8)] *)
Definition threshold (g : Z) : Z := if 0 <? g then 1 else 0.

(** [mask.fill(0)] *)
Definition fill0 (m : ndarray pixel) : ndarray pixel := amap (λ _, black) m.

(** ** The filled-disc rasteriser behind [cv2.circle(img, c, r, color, -1)]

    With thickness [-1], line type 8 and no fractional bits, [cv2.circle]
    runs the integer midpoint loop of OpenCV's drawing module: [dx] starts at
    the radius, [dy] at 0, and each round fills the rows [cy ± dy] between
    [cx ± dx] and the rows [cy ± dx] between [cx ± dy], directly when the disc
    lies inside the image and clipped to the image otherwise. *)

(** The [n] consecutive pixels from offset [start] receive [color]. *)
Fixpoint put_points (d : list pixel) (start n : nat) (color : pixel) : list pixel :=
  match n with
  | O => d
  | S n' => put_points (<[start := color]> d) (S start) n' color
  end.

(** One horizontal run on row [y] from column [x1] to column [x2].  The
    routine writes through a raw pointer: a run that leaves the row is a
    memory fault, which is [None] here. *)
Definition hline (img : ndarray pixel) (y x1 x2 : Z) (color : pixel)
  : option (ndarray pixel) :=
  if x2 <? x1 then Some img
  else if (0 <=? y) && (y <? Z.of_nat (arr_rows img))
          && (0 <=? x1) && (x2 <? Z.of_nat (arr_cols img))
  then Some (NdArray (arr_rows img) (arr_cols img)
               (put_points (arr_data img)
                  (Z.to_nat (y * Z.of_nat (arr_cols img) + x1))
                  (Z.to_nat (x2 - x1 + 1)) color))
  else None.

Record circ_state : Type := CircState {
  c_err : Z; c_dx : Z; c_dy : Z; c_plus : Z; c_minus : Z
}.

(** [(unsigned)y < (unsigned)size.height] *)
Definition row_ok (img : ndarray pixel) (y : Z) : bool :=
  (0 <=? y) && (y <? Z.of_nat (arr_rows img)).

Definition hline_if (b : bool) (img : ndarray pixel) (y x1 x2 : Z) (color : pixel)
  : option (ndarray pixel) :=
  if b then hline img y x1 x2 color else Some img.

(** The body of one round of the loop, [fill] being set. *)
Definition circle_body (img : ndarray pixel) (cx cy : Z) (inside : bool)
    (color : pixel) (s : circ_state) : option (ndarray pixel) :=
  let width := Z.of_nat (arr_cols img) in
  let height := Z.of_nat (arr_rows img) in
  let dx := c_dx s in
  let dy := c_dy s in
  let y11 := cy - dy in let y12 := cy + dy in
  let y21 := cy - dx in let y22 := cy + dx in
  let x11 := cx - dx in let x12 := cx + dx in
  let x21 := cx - dy in let x22 := cx + dy in
  if inside then
    img ← hline img y11 x11 x12 color;
    img ← hline img y12 x11 x12 color;
    img ← hline img y21 x21 x22 color;
    hline img y22 x21 x22 color
  else if (x11 <? width) && (0 <=? x12) && (y21 <? height) && (0 <=? y22) then
    let x11 := Z.max x11 0 in
    let x12 := Z.min x12 (width - 1) in
    img ← hline_if (row_ok img y11) img y11 x11 x12 color;
    img ← hline_if (row_ok img y12) img y12 x11 x12 color;
    if (x21 <? width) && (0 <=? x22) then
      let x21 := Z.max x21 0 in
      let x22 := Z.min x22 (width - 1) in
      img ← hline_if (row_ok img y21) img y21 x21 x22 color;
      hline_if (row_ok img y22) img y22 x21 x22 color
    else Some img
  else Some img.

(** The update at the end of a round:
    [dy++; err += plus; plus += 2; mask = (err <= 0) - 1;
     err -= minus & mask; dx += mask; minus -= mask & 2]. *)
Definition circle_next (s : circ_state) : circ_state :=
  let dy := c_dy s + 1 in
  let err := c_err s + c_plus s in
  let plus := c_plus s + 2 in
  let mask := (if err <=? 0 then 1 else 0) - 1 in
  CircState (err - Z.land (c_minus s) mask) (c_dx s + mask) dy plus
            (c_minus s - Z.land mask 2).

(** [while (dx >= dy) { body; update }], with the number of rounds bounded by
    [fuel]; [None] is a memory fault in a round or an exhausted bound. *)
Fixpoint circle_loop (fuel : nat) (img : ndarray pixel) (cx cy : Z)
    (inside : bool) (color : pixel) (s : circ_state) : option (ndarray pixel) :=
  if c_dx s <? c_dy s then Some img
  else match fuel with
       | O => None
       | S fuel' =>
           match circle_body img cx cy inside color s with
           | Some img' => circle_loop fuel' img' cx cy inside color (circle_next s)
           | None => None
           end
       end.

Definition circle_init (radius : Z) : circ_state :=
  CircState 0 radius 0 1 (Z.shiftl radius 1 - 1).

Definition circle_inside (img : ndarray pixel) (cx cy radius : Z) : bool :=
  (radius <=? cx) && (cx <? Z.of_nat (arr_cols img) - radius)
  && (radius <=? cy) && (cy <? Z.of_nat (arr_rows img) - radius).

(** [Circle(img, center, radius, color, fill = 1)].  The loop makes at most
    [radius + 1] rounds, which is the bound given to it. *)
Definition Circle (img : ndarray pixel) (cx cy radius : Z) (color : pixel)
  : option (ndarray pixel) :=
  circle_loop (Z.to_nat (radius + 1)) img cx cy
              (circle_inside img cx cy radius) color (circle_init radius).

(** Outcome of a library call made by the script: the value, or the
    exception that ends the process. *)
Inductive exn : Type :=
  | CvError          (* cv2.error: a failed assertion inside OpenCV *)
  | AttributeError   (* attribute access on None *)
  | IndexError       (* list index out of range *)
  | ZeroDivisionError
  | LoadError        (* np.load on a file that is not a stored array *)
  | MemoryFault      (* a write outside the pixel buffer *)
  | FileExistsError    (* os.mkdir on a path that exists *)
  | FileNotFoundError  (* os.mkdir with a missing parent, or on the empty path *)
  | NotADirectoryError (* os.mkdir under a regular file *)
  | SystemExit.      (* argparse prints its help or an error and exits *)

#[global] Instance exn_eq_dec : EqDecision exn.
Proof. solve_decision. Defined.

(** [cv2.circle(img, (x, y), radius, color, -1)]: the radius is asserted to be
    non-negative, then the disc is filled. *)
Definition cv2_circle (img : ndarray pixel) (x y radius : Z) (color : pixel)
  : exn + ndarray pixel :=
  if radius <? 0 then inl CvError
  else match Circle img x y radius color with
       | Some img' => inr img'
       | None => inl MemoryFault
       end.

(** ** Paths and file names ([os.path], [glob]) on POSIX strings *)

Definition slash : ascii := "/"%char.
Definition dot : ascii := "."%char.

(** [s.rfind(c)]: the last position of [c], or -1. *)
Fixpoint rfind_from (c : ascii) (l : list ascii) (pos last : Z) : Z :=
  match l with
  | [] => last
  | a :: l' => rfind_from c l' (pos + 1) (if Ascii.eqb a c then pos else last)
  end.

Definition rfind (c : ascii) (l : list ascii) : Z := rfind_from c l 0 (-1).

(** [os.path.basename(p)]: [p[p.rfind('/') + 1:]]. *)
Definition basename (p : string) : string :=
  let l := list_ascii_of_string p in
  string_of_list_ascii (drop (Z.to_nat (rfind slash l + 1)) l).

(** [os.path.splitext(p)]: split at the last dot, unless that dot comes before
    the last slash or only dots stand between the two. *)
Definition splitext (p : string) : string * string :=
  let l := list_ascii_of_string p in
  let sepIndex := rfind slash l in
  let dotIndex := rfind dot l in
  if (sepIndex <? dotIndex)
     && existsb (λ a, negb (Ascii.eqb a dot))
          (take (Z.to_nat (dotIndex - (sepIndex + 1)))
                (drop (Z.to_nat (sepIndex + 1)) l))
  then (string_of_list_ascii (take (Z.to_nat dotIndex) l),
        string_of_list_ascii (drop (Z.to_nat dotIndex) l))
  else (p, ""%string).

Definition starts_with (c : ascii) (s : string) : bool :=
  match s with
  | String a _ => Ascii.eqb a c
  | EmptyString => false
  end.

Definition ends_with (c : ascii) (s : string) : bool :=
  match rev (list_ascii_of_string s) with
  | a :: _ => Ascii.eqb a c
  | [] => false
  end.

(** [os.path.join(a, b)] *)
Definition path_join (a b : string) : string :=
  if starts_with slash b then b
  else if String.eqb a "" || ends_with slash a then a +:+ b
  else a +:+ "/" +:+ b.

(** [l.rstrip('/')] *)
Fixpoint lstrip_slash (l : list ascii) : list ascii :=
  match l with
  | a :: l' => if Ascii.eqb a slash then lstrip_slash l' else l
  | [] => []
  end.

Definition rstrip_slash (l : list ascii) : list ascii :=
  rev (lstrip_slash (rev l)).

(** [os.path.split(p)]: head and tail around the last slash; the head loses
    its trailing slashes unless it consists of slashes only. *)
Definition os_path_split (p : string) : string * string :=
  let l := list_ascii_of_string p in
  let i := Z.to_nat (rfind slash l + 1) in
  let head := take i l in
  let tail := drop i l in
  let head := if forallb (λ a, Ascii.eqb a slash) head then head
              else rstrip_slash head in
  (string_of_list_ascii head, string_of_list_ascii tail).

(** [glob.has_magic(s)]: [s] holds one of the characters [*], [?] and [[]. *)
Definition has_magic (s : string) : bool :=
  existsb (λ a, Ascii.eqb a "*" || Ascii.eqb a "?" || Ascii.eqb a "[")%char
          (list_ascii_of_string s).

(** A name matches ["*." ++ classes], each class being a pair of accepted
    characters such as [jJ]; as in [glob], the star does not match a name
    that begins with a dot. *)
Fixpoint match_classes (classes : list (ascii * ascii)) (l : list ascii) : bool :=
  match classes, l with
  | [], [] => true
  | (lo, up) :: cs, a :: l' =>
      (Ascii.eqb a lo || Ascii.eqb a up) && match_classes cs l'
  | _, _ => false
  end.

Definition match_ext (classes : list (ascii * ascii)) (name : string) : bool :=
  let l := list_ascii_of_string name in
  let n := length l in
  let k := S (length classes) in
  negb (starts_with dot name) && (k <=? n)%nat &&
  match drop (n - k) l with
  | a :: ext => Ascii.eqb a dot && match_classes classes ext
  | [] => false
  end.

Definition jpg_classes : list (ascii * ascii) :=
  [("j", "J"); ("p", "P"); ("g", "G")]%char.
Definition jpeg_classes : list (ascii * ascii) :=
  [("j", "J"); ("p", "P"); ("e", "E"); ("g", "G")]%char.
Definition png_classes : list (ascii * ascii) :=
  [("p", "P"); ("n", "N"); ("g", "G")]%char.

(** The pattern as the constructor writes it: ["*.[jJ][pP][gG]"] for
    [jpg_classes]. *)
Fixpoint classes_pattern (classes : list (ascii * ascii)) : string :=
  match classes with
  | [] => ""
  | (lo, up) :: cs => String "[" (String lo (String up (String "]" (classes_pattern cs))))
  end.

Definition pattern_of (classes : list (ascii * ascii)) : string :=
  "*." +:+ classes_pattern classes.

(** [sorted] on strings. *)
Fixpoint insert_sorted (s : string) (l : list string) : list string :=
  match l with
  | [] => [s]
  | x :: l' => if String.leb s x then s :: l else x :: insert_sorted s l'
  end.

Definition sorted (l : list string) : list string := foldr insert_sorted [] l.

(** ** The world outside the process: files, directories, the window *)

Inductive file : Type :=
  | NpyFile (a : ndarray Z)        (* a stored 2-D uint8 array *)
  | ImageFile (m : ndarray pixel)  (* a decodable picture *)
  | OtherFile.                     (* anything else *)

(** Files and directories are kept under the path strings by which the
    script reaches them.  [w_glob] is the part of the file system's own
    pattern expansion that the script can trigger without doing it itself: for
    a directory name that holds [*], [?] or [[], the directories it expands
    to. *)
Record World : Type := MkWorld {
  w_files : gmap string file;
  w_dirs : gmap string (list string);  (* directory ↦ names of its entries *)
  w_trackbar : Z;                      (* position of the "Brush Size" trackbar *)
  w_glob : gmap string (list string)   (* directory pattern ↦ its expansions *)
}.

(** A world without pattern expansions. *)
Definition mkWorld (files : gmap string file) (dirs : gmap string (list string))
    (trackbar : Z) : World :=
  MkWorld files dirs trackbar ∅.

Inductive Res (A : Type) : Type :=
  | Ok (a : A) (w : World)
  | Raise (e : exn) (w : World).
Arguments Ok {A} _ _.
Arguments Raise {A} _ _.

(** Computations of the script: they read and change the world and end with
    a value or with an uncaught exception. *)
Definition M (A : Type) : Type := World → Res A.

#[global] Instance M_ret : MRet M := λ A a w, Ok a w.
#[global] Instance M_bind : MBind M := λ A B f m w,
  match m w with
  | Ok a w' => f a w'
  | Raise e w' => Raise e w'
  end.

Definition raise {A} (e : exn) : M A := λ w, Raise e w.

Definition lift {A} (r : exn + A) : M A :=
  match r with
  | inl e => raise e
  | inr a => mret a
  end.

Definition get_world : M World := λ w, Ok w w.
Definition put_files (f : gmap string file) : M unit :=
  λ w, Ok tt (MkWorld f (w_dirs w) (w_trackbar w) (w_glob w)).
Definition put_dirs (d : gmap string (list string)) : M unit :=
  λ w, Ok tt (MkWorld (w_files w) d (w_trackbar w) (w_glob w)).
Definition put_trackbar (p : Z) : M unit :=
  λ w, Ok tt (MkWorld (w_files w) (w_dirs w) p (w_glob w)).

(** The world a computation leaves behind, whatever its outcome. *)
Definition world_of {A} (r : Res A) : World :=
  match r with
  | Ok _ w => w
  | Raise _ w => w
  end.

(** [os.path.isdir], [os.path.exists] *)
Definition isdir (p : string) : M bool :=
  w ← get_world; mret (bool_decide (is_Some (w_dirs w !! p))).

Definition path_exists (p : string) : M bool :=
  w ← get_world;
  mret (bool_decide (is_Some (w_files w !! p)) || bool_decide (is_Some (w_dirs w !! p))).

(** [try: m except e0: pass] *)
Definition try_except (e0 : exn) (m : M unit) : M unit := λ w,
  match m w with
  | Ok u w' => Ok u w'
  | Raise e w' => if decide (e = e0) then Ok tt w' else Raise e w'
  end.

(** [os.mkdir(name)]: fails on the empty path, on a path that exists, under
    a regular file and under a missing directory; otherwise the directory
    exists afterwards, empty, and its parent lists it. *)
Definition mkdir (name : string) : M unit :=
  w ← get_world;
  let l := list_ascii_of_string name in
  let '(head, tail) := os_path_split (string_of_list_ascii (rstrip_slash l)) in
  if String.eqb name "" then raise FileNotFoundError
  else if forallb (λ a, Ascii.eqb a slash) l then raise FileExistsError
  else if bool_decide (is_Some (w_files w !! name))
          || bool_decide (is_Some (w_dirs w !! name)) then raise FileExistsError
  else if bool_decide (is_Some (w_files w !! head)) then raise NotADirectoryError
  else if negb (String.eqb head "")
          && negb (forallb (λ a, Ascii.eqb a slash) (list_ascii_of_string head))
          && negb (bool_decide (is_Some (w_dirs w !! head)))
  then raise FileNotFoundError
  else put_dirs (<[name := []]>
                 (alter (λ names, names ++ [tail])
                        (if String.eqb head "" then "." else head) (w_dirs w))).

(** [os.makedirs(name)]: the missing ancestors are made first.  [fuel]
    bounds the depth of the recursion on the head of the path, which gets
    shorter each time. *)
Fixpoint makedirs_rec (fuel : nat) (name : string) : M unit :=
  match fuel with
  | O => mkdir name
  | S fuel' =>
      let '(head, tail) := os_path_split name in
      let '(head, tail) := if String.eqb tail "" then os_path_split head
                           else (head, tail) in
      ex ← path_exists head;
      if negb (String.eqb head "") && negb (String.eqb tail "") && negb ex then
        try_except FileExistsError (makedirs_rec fuel' head);;
        if String.eqb tail "." then
          mret tt  (* [xxx/newdir/.] exists if [xxx/newdir] exists *)
        else mkdir name
      else mkdir name
  end.

Definition makedirs (name : string) : M unit :=
  makedirs_rec (String.length name) name.

(** [os.scandir(dirname)] as [glob] uses it: the current directory for the
    empty name, nothing for what is not a directory. *)
Definition listdir (w : World) (dirname : string) : list string :=
  default [] (w_dirs w !! (if String.eqb dirname "" then "." else dirname)).

(** The directories [glob] searches for a path name: the head of the path
    as it is, or, when the head holds magic characters, its expansions. *)
Definition glob_dirs (w : World) (pathname : string) : list string :=
  let dirname := (os_path_split pathname).1 in
  if has_magic dirname then default [] (w_glob w !! dirname) else [dirname].

(** [glob.glob(os.path.join(dir, pattern))] for one of the three patterns of
    the constructor.  The path name is split into head and pattern; every
    non-hidden name of each directory that matches the pattern is joined to
    the directory. *)
Definition glob_in (w : World) (dir : string) (classes : list (ascii * ascii))
  : list string :=
  dirname ← glob_dirs w (path_join dir (pattern_of classes));
  map (path_join dirname)
      (filter (λ n, match_ext classes n = true) (listdir w dirname)).

Definition glob (dir : string) (classes : list (ascii * ascii)) : M (list string) :=
  w ← get_world; mret (glob_in w dir classes).

(** [cv2.imread(p)]: the decoded 3-channel picture, or [None].  A decoded
    picture is never empty and its buffer matches its size. *)
Definition imread_in (files : gmap string file) (p : string) : option (ndarray pixel) :=
  match files !! p with
  | Some (ImageFile m) =>
      if is_empty m || negb (bool_decide (well_formed m)) then None else Some m
  | _ => None
  end.

Definition cv2_imread (p : string) : M (option (ndarray pixel)) :=
  w ← get_world; mret (imread_in (w_files w) p).

(** [np.load(p)] and [np.save(p, a)].  A file whose buffer does not match
    its header is not a stored array. *)
Definition np_load (p : string) : M (ndarray Z) :=
  w ← get_world;
  match w_files w !! p with
  | Some (NpyFile a) =>
      if bool_decide (well_formed a) then mret a else raise LoadError
  | _ => raise LoadError
  end.

Definition np_save (p : string) (a : ndarray Z) : M unit :=
  w ← get_world; put_files (<[p := NpyFile a]> (w_files w)).

(** [cv2.cvtColor(m, cv2.COLOR_BGR2GRAY)]: asserts that [m] is not empty. *)
Definition cv2_cvtColor_BGR2GRAY (m : ndarray pixel) : exn + ndarray Z :=
  if is_empty m then inl CvError else inr (amap bgr2gray m).

(** [cv2.addWeighted(src1, a, src2, b, g, dst)] asserts that the two arrays
    have one size.  The blended frame only goes to the window. *)
Definition cv2_addWeighted_check (src1 src2 : ndarray pixel) : exn + unit :=
  if bool_decide (shape src1 = shape src2) then inr tt else inl CvError.

(** [cv2.createTrackbar(name, window, value, count, onChange)] and
    [cv2.getTrackbarPos(name, window)]: the slider stays within [0, count]. *)
Definition clamp (lo hi v : Z) : Z := Z.max lo (Z.min hi v).

Definition cv2_createTrackbar (value count : Z) : M unit :=
  put_trackbar (clamp 0 count value).

Definition cv2_getTrackbarPos : M Z := w ← get_world; mret (w_trackbar w).

(** [l[i]] with Python's negative indices. *)
Definition py_index {A} (l : list A) (i : Z) : exn + A :=
  let n := Z.of_nat (length l) in
  let k := if i <? 0 then i + n else i in
  if (0 <=? k) && (k <? n) then
    match l !! Z.to_nat k with
    | Some a => inr a
    | None => inl IndexError
    end
  else inl IndexError.

(** [a % n] *)
Definition py_mod (a n : Z) : exn + Z :=
  if n =? 0 then inl ZeroDivisionError else inr (a `mod` n).

(** ** The session *)

Record AnnotationTool : Type := mkTool {
  img_dir : string;
  img_files : list string;
  save_dir : string;
  index : Z;
  mask : ndarray pixel;
  mask_path : string;
  drawing : bool;
  brush_size : Z;
  eraser_mode : bool
}.

Definition set_index (t : AnnotationTool) (i : Z) : AnnotationTool :=
  mkTool (img_dir t) (img_files t) (save_dir t) i (mask t) (mask_path t)
         (drawing t) (brush_size t) (eraser_mode t).
Definition set_mask (t : AnnotationTool) (m : ndarray pixel) : AnnotationTool :=
  mkTool (img_dir t) (img_files t) (save_dir t) (index t) m (mask_path t)
         (drawing t) (brush_size t) (eraser_mode t).
Definition set_mask_path (t : AnnotationTool) (p : string) : AnnotationTool :=
  mkTool (img_dir t) (img_files t) (save_dir t) (index t) (mask t) p
         (drawing t) (brush_size t) (eraser_mode t).
Definition set_drawing (t : AnnotationTool) (b : bool) : AnnotationTool :=
  mkTool (img_dir t) (img_files t) (save_dir t) (index t) (mask t) (mask_path t)
         b (brush_size t) (eraser_mode t).
Definition set_eraser_mode (t : AnnotationTool) (b : bool) : AnnotationTool :=
  mkTool (img_dir t) (img_files t) (save_dir t) (index t) (mask t) (mask_path t)
         (drawing t) (brush_size t) b.

(** [set_brush_size(self, size)]: [self.brush_size = size]. *)
Definition set_brush_size (t : AnnotationTool) (size : Z) : AnnotationTool :=
  mkTool (img_dir t) (img_files t) (save_dir t) (index t) (mask t) (mask_path t)
         (drawing t) size (eraser_mode t).

(** The mask file of an image: the image's base name with its extension
    replaced by [.npy], in the save directory. *)
Definition mask_path_of (save_dir image : string) : string :=
  let image_fname := basename image in
  let mask_name := (splitext image_fname).1 +:+ ".npy" in
  path_join save_dir mask_name.

(** [initialize_mask(self)] *)
Definition initialize_mask (t : AnnotationTool) : M AnnotationTool :=
  f ← lift (py_index (img_files t) (index t));
  let t := set_mask_path t (mask_path_of (save_dir t) f) in
  ex ← path_exists (mask_path t);
  if ex : bool then
    binary_mask ← np_load (mask_path t);
    mret (set_mask t (stack3_times_255 binary_mask))
  else
    f ← lift (py_index (img_files t) (index t));
    first_img ← cv2_imread f;
    match first_img with
    | None => raise AttributeError
    | Some first_img => mret (set_mask t (np_zeros (shape first_img)))
    end.

(** [__init__(self, img_dir, save_dir=None)].  Before [initialize_mask] runs
    [self.mask] is [None] and [self.mask_path] is not set; the empty array and
    the empty string stand for them, and [initialize_mask] reads neither. *)
Definition __init__ (img_dir : string) (save_dir : option string) : M AnnotationTool :=
  jpg ← glob img_dir jpg_classes;
  jpeg ← glob img_dir jpeg_classes;
  png ← glob img_dir png_classes;
  let img_files := sorted (jpg ++ jpeg ++ png)%list in
  let save_dir := match save_dir with
                  | Some s => if String.eqb s "" then img_dir else s
                  | None => img_dir
                  end in
  d ← isdir save_dir;
  (if d : bool then mret tt else makedirs save_dir);;
  initialize_mask (mkTool img_dir img_files save_dir 0 (NdArray 0 0 []) ""
                          false 5 false).

(** [update_window(self)]: reads the picture again, blends the mask over it
    and shows the frame.  Only its failures matter to the session: a picture
    that cannot be read, or a mask of another size than the picture. *)
Definition update_window (t : AnnotationTool) : M unit :=
  f ← lift (py_index (img_files t) (index t));
  img ← cv2_imread f;
  match img with
  | None => raise AttributeError
  | Some img => lift (cv2_addWeighted_check img (mask t))
  end.

Definition EVENT_MOUSEMOVE : Z := 0.
Definition EVENT_LBUTTONDOWN : Z := 1.
Definition EVENT_LBUTTONUP : Z := 4.

(** [draw_mask(self, event, x, y, flags, param)], the mouse callback. *)
Definition draw_mask (event x y flags : Z) (t : AnnotationTool) : M AnnotationTool :=
  pos ← cv2_getTrackbarPos;
  let t := set_brush_size t pos in
  let color := if eraser_mode t then black else white in
  if event =? EVENT_LBUTTONDOWN then
    let t := set_drawing t true in
    m ← lift (cv2_circle (mask t) x y (brush_size t) color);
    let t := set_mask t m in
    update_window t;;
    mret t
  else if event =? EVENT_LBUTTONUP then
    mret (set_drawing t false)
  else if event =? EVENT_MOUSEMOVE then
    if drawing t then
      m ← lift (cv2_circle (mask t) x y (brush_size t) color);
      let t := set_mask t m in
      update_window t;;
      mret t
    else mret t
  else mret t.

(** [save_mask(self)] *)
Definition save_mask (t : AnnotationTool) : M unit :=
  gray_mask ← lift (cv2_cvtColor_BGR2GRAY (mask t));
  let binary_mask := amap threshold gray_mask in
  np_save (mask_path t) binary_mask.

(** What reaches the window while [cv2.waitKey(0)] blocks: mouse events, and
    moves of the trackbar, whose callback is [set_brush_size]. *)
Inductive gui_event : Type :=
  | MouseEvent (event x y flags : Z)
  | TrackbarMove (pos : Z).

Definition on_event (ev : gui_event) (t : AnnotationTool) : M AnnotationTool :=
  match ev with
  | MouseEvent event x y flags => draw_mask event x y flags t
  | TrackbarMove pos =>
      put_trackbar (clamp 0 50 pos);;
      mret (set_brush_size t (clamp 0 50 pos))
  end.

Fixpoint dispatch (evs : list gui_event) (t : AnnotationTool) : M AnnotationTool :=
  match evs with
  | [] => mret t
  | ev :: evs' => t ← on_event ev t; dispatch evs' t
  end.

(** The first half of a round of [main]: the window and its trackbar are
    set up, the frame is shown, and the callbacks run until a key comes. *)
Definition wait_key (evs : list gui_event) (t : AnnotationTool) : M AnnotationTool :=
  cv2_createTrackbar (brush_size t) 50;;
  update_window t;;
  dispatch evs t.

Inductive control : Type :=
  | Continue (t : AnnotationTool)
  | Break (t : AnnotationTool).

Definition key_ESC : Z := 27.
Definition key_q : Z := 113.
Definition key_a : Z := 97.
Definition key_d : Z := 100.
Definition key_e : Z := 101.
Definition key_r : Z := 114.

(** The second half of a round: the [if]/[elif] chain on the key. *)
Definition on_key (key : Z) (t : AnnotationTool) : M control :=
  if (key =? key_ESC) || (key =? key_q) then mret (Break t)
  else if (key =? key_a) || (key =? key_d) then
    save_mask t;;
    i ← lift (if key =? key_a
              then py_mod (index t - 1) (Z.of_nat (length (img_files t)))
              else py_mod (index t + 1) (Z.of_nat (length (img_files t))));
    t ← initialize_mask (set_index t i);
    mret (Continue t)
  else if key =? key_e then
    mret (Continue (set_eraser_mode t (negb (eraser_mode t))))
  else if key =? key_r then
    let t := set_mask t (fill0 (mask t)) in
    update_window t;;
    mret (Continue t)
  else mret (Continue t).

(** [main(self)]: one element of [rounds] per round of the [while True] loop,
    the events delivered during [waitKey] and the key it returns. *)
Fixpoint main (rounds : list (list gui_event * Z)) (t : AnnotationTool)
  : M AnnotationTool :=
  match rounds with
  | [] => mret t
  | (evs, key) :: rest =>
      t ← wait_key evs t;
      c ← on_key key t;
      match c with
      | Break t => mret t
      | Continue t => main rest t
      end
  end.

(** ** The command line *)

Record Namespace : Type := mkNamespace {
  ns_img_dir : string;
  ns_save_dir : string
}.

(** The options of the parser: [-h]/[--help], which argparse adds, and
    the two of the script. *)
Inductive cli_option : Type := OptHelp | OptImgDir | OptSaveDir.

Definition option_strings : list (string * cli_option) :=
  [("-h", OptHelp); ("--help", OptHelp);
   ("--img_dir", OptImgDir); ("--save_dir", OptSaveDir)]%string.

Fixpoint assoc_option (s : string) (l : list (string * cli_option))
  : option cli_option :=
  match l with
  | [] => None
  | (k, o) :: l' => if String.eqb k s then Some o else assoc_option s l'
  end.

(** [option_string_actions.get(s)] *)
Definition lookup_option (s : string) : option cli_option :=
  assoc_option s option_strings.

(** [s.split('=', 1)] when [s] holds an [=]. *)
Fixpoint split_eq (s : string) : option (string * string) :=
  match s with
  | EmptyString => None
  | String c s' =>
      if Ascii.eqb c "=" then Some (EmptyString, s')
      else match split_eq s' with
           | Some (a, b) => Some (String c a, b)
           | None => None
           end
  end.

Definition is_digit (a : ascii) : bool :=
  (Ascii.leb "0" a && Ascii.leb a "9")%char.

(** The pattern [^-\d+$|^-\d*\.\d+$] of argparse, on what follows the
    dash. *)
Fixpoint digits_dot_digits (l : list ascii) : bool :=
  match l with
  | [] => false
  | a :: l' =>
      if Ascii.eqb a "." then negb (bool_decide (l' = [])) && forallb is_digit l'
      else is_digit a && digits_dot_digits l'
  end.

Definition is_negative_number (s : string) : bool :=
  match s with
  | String "-" rest =>
      let l := list_ascii_of_string rest in
      (negb (bool_decide (l = [])) && forallb is_digit l) || digits_dot_digits l
  | _ => false
  end.

(** How argparse reads one argument. *)
Inductive arg_kind : Type :=
  | Positional                                          (* not an option *)
  | Optional (o : cli_option) (explicit : option string) (* an option, maybe with [=value] *)
  | Rejected.                     (* an ambiguous or unknown option: exit *)

(** The option strings an abbreviation may stand for, each with the value
    written after it. *)
Definition abbreviations (a : string) : list (cli_option * option string) :=
  if String.prefix "--" a then
    let '(option_prefix, explicit) :=
      match split_eq a with
      | Some (p, e) => (p, Some e)
      | None => (a, None)
      end in
    omap (λ p : string * cli_option,
            if String.prefix option_prefix p.1 then Some (p.2, explicit) else None)
         option_strings
  else
    let short_option_prefix := String.substring 0 2 a in
    let short_explicit_arg := String.substring 2 (String.length a - 2) a in
    omap (λ p : string * cli_option,
            if String.eqb p.1 short_option_prefix then Some (p.2, Some short_explicit_arg)
            else if String.prefix a p.1 then Some (p.2, None)
            else None)
         option_strings.

(** [--opt=value] with [--opt] an option string written in full. *)
Definition explicit_option (a : string) : option arg_kind :=
  match split_eq a with
  | Some (o, e) =>
      match lookup_option o with
      | Some act => Some (Optional act (Some e))
      | None => None
      end
  | None => None
  end.

(** [_parse_optional(arg_string)] *)
Definition classify (a : string) : arg_kind :=
  if String.eqb a "" then Positional
  else if negb (starts_with "-" a) then Positional
  else match lookup_option a with
       | Some o => Optional o None
       | None =>
           if (String.length a =? 1)%nat then Positional
           else match explicit_option a with
                | Some k => k
                | None =>
                    match abbreviations a with
                    | [(o, e)] => Optional o e
                    | _ :: _ :: _ => Rejected
                    | [] =>
                        if is_negative_number a then Positional
                        else if existsb (λ c, Ascii.eqb c " ")
                                  (list_ascii_of_string a)
                        then Positional
                        else Rejected
                    end
                end
       end.

Definition set_option (o : cli_option) (v : string) (ns : Namespace) : Namespace :=
  match o with
  | OptImgDir => mkNamespace v (ns_save_dir ns)
  | OptSaveDir => mkNamespace (ns_img_dir ns) v
  | OptHelp => ns
  end.

(** The pass of argparse over the arguments.  The parser has no positional
    argument and each of its two options takes one value, so a name space
    comes out only when every argument is an option of the script with its
    value, written [--opt=value] or [--opt value] with a value that does not
    look like an option; everything else ([-h], an unknown or ambiguous
    option, a missing value, a stray word, the separator [--]) makes argparse
    print and exit. *)
Fixpoint parse_loop (argv : list string) (ns : Namespace) : exn + Namespace :=
  match argv with
  | [] => inr ns
  | a :: rest =>
      if String.eqb a "--" then inl SystemExit
      else match classify a with
           | Optional OptHelp _ => inl SystemExit
           | Optional o (Some v) => parse_loop rest (set_option o v ns)
           | Optional o None =>
               match rest with
               | v :: rest' =>
                   if String.eqb v "--" then inl SystemExit
                   else match classify v with
                        | Positional => parse_loop rest' (set_option o v ns)
                        | _ => inl SystemExit
                        end
               | [] => inl SystemExit
               end
           | Positional | Rejected => inl SystemExit
           end
  end.

(** [parse_args()]: the defaults are [images] and [outputs]. *)
Definition parse_args (argv : list string) : exn + Namespace :=
  parse_loop argv (mkNamespace "images" "outputs").

(** An argument that argparse reads as the option [--save_dir]: the option
    string itself, an abbreviation of it that fits no other option, or one of
    the two followed by [=value]. *)
Definition is_save_dir_argument (a : string) : bool :=
  match classify a with
  | Optional OptSaveDir _ => true
  | _ => false
  end.

(** The [if __name__ == "__main__"] block up to the call of [main]: [None]
    when the image directory is missing and the script exits. *)
Definition startup (argv : list string) : M (option AnnotationTool) :=
  args ← lift (parse_args argv);
  d ← isdir (ns_img_dir args);
  if d : bool then
    tool ← __init__ (ns_img_dir args) (Some (ns_save_dir args));
    mret (Some tool)
  else mret None.

(** ** Reachable session states *)

(** The image the session is on: [self.img_files[self.index]]. *)
Definition current_image (t : AnnotationTool) : exn + string :=
  py_index (img_files t) (index t).

(** States at the top of the [while] loop of [main], from a session
    constructed in the world [w0]. *)
Inductive at_top (w0 : World) : AnnotationTool → World → Prop :=
  | top_start img_dir save_dir t w :
      __init__ img_dir save_dir w0 = Ok t w →
      at_top w0 t w
  | top_round t w evs key t1 w1 t2 w2 :
      at_top w0 t w →
      wait_key evs t w = Ok t1 w1 →
      on_key key t1 w1 = Ok (Continue t2) w2 →
      at_top w0 t2 w2.

(** States inside [cv2.waitKey(0)]: the frame is on screen, some events have
    been handled, the next event or the key is about to be processed. *)
Definition at_key (w0 : World) (t1 : AnnotationTool) (w1 : World) : Prop :=
  ∃ t w evs, at_top w0 t w ∧ wait_key evs t w = Ok t1 w1.

(** A pixel of a mask under edit: all channels 0 or all channels 255. *)
Definition bw (p : pixel) : Prop := p = black ∨ p = white.

Definition binary (v : Z) : Prop := v = 0 ∨ v = 1.

(** Every stored mask holds only 0 and 1. *)
Definition binary_files (w : World) : Prop :=
  ∀ p a, w_files w !! p = Some (NpyFile a) → Forall binary (arr_data a).

(** The 3-channel mask collapsed to the stored form, as [save_mask] does. *)
Definition collapse (m : ndarray pixel) : ndarray Z :=
  amap threshold (amap bgr2gray m).

(** The index a navigation key leads to. *)
Definition nav_index (key : Z) (t : AnnotationTool) : Z :=
  if key =? key_a
  then (index t - 1) `mod` Z.of_nat (length (img_files t))
  else (index t + 1) `mod` Z.of_nat (length (img_files t)).

(** The world after [np.save(path, a)]. *)
Definition saved (w : World) (path : string) (a : ndarray Z) : World :=
  MkWorld (<[path := NpyFile a]> (w_files w)) (w_dirs w) (w_trackbar w) (w_glob w).

(** ** Vocabulary of the proofs *)

(** A computation that leaves every file as it is, whatever its outcome. *)
Definition keeps_files {A} (m : M A) : Prop :=
  ∀ w, w_files (world_of (m w)) = w_files w.

(** [save_dir if save_dir else img_dir] *)
Definition chosen_save_dir (img_dir : string) (save_dir : option string) : string :=
  match save_dir with
  | Some s => if String.eqb s "" then img_dir else s
  | None => img_dir
  end.

(** The directory part of [os.path.join(img_dir, pattern)] for a pattern
    without slash: [img_dir] without its trailing slashes, unless it is made
    of slashes only. *)
Definition glob_dirname (img_dir : string) : string :=
  let l := list_ascii_of_string img_dir in
  string_of_list_ascii
    (if forallb (λ a, Ascii.eqb a slash) l then l else rstrip_slash l).

(** The directories the constructor lists. *)
Definition searched_dirs (w : World) (img_dir : string) : list string :=
  let dirname := glob_dirname img_dir in
  if has_magic dirname then default [] (w_glob w !! dirname) else [dirname].

(** The list of pictures the constructor builds. *)
Definition listed_pictures (w : World) (img_dir : string) : list string :=
  sorted (glob_in w img_dir jpg_classes ++ glob_in w img_dir jpeg_classes
          ++ glob_in w img_dir png_classes).

(** [img'] is [img] with the in-bounds pixels selected by [P] set to [c]. *)
Definition painted (c : pixel) (P : Z → Z → bool) (img img' : ndarray pixel) : Prop :=
  arr_rows img' = arr_rows img ∧ arr_cols img' = arr_cols img ∧
  well_formed img' ∧
  ∀ i j, in_bounds img i j →
    get_px img' i j = if P i j then Some c else get_px img i j.

(** Row [y], columns [x1] to [x2]. *)
Definition on_run (y x1 x2 i j : Z) : bool :=
  (i =? y) && (x1 <=? j) && (j <=? x2).

(** Row [y], columns at most [d] away from [cx]. *)
Definition on_row (y cx d i j : Z) : bool :=
  (i =? y) && (Z.abs (j - cx) <=? d).

(** The pixels one round of the loop is meant to fill. *)
Definition span (cx cy dx dy i j : Z) : bool :=
  (Z.abs (i - cy) =? dy) && (Z.abs (j - cx) <=? dx)
  || (Z.abs (i - cy) =? dx) && (Z.abs (j - cx) <=? dy).

(** The disc of radius [r] around [(cx, cy)]; [i] is the row, [j] the column. *)
Definition disc (cx cy r i j : Z) : bool :=
  (j - cx) * (j - cx) + (i - cy) * (i - cy) <=? r * r.

(** What the loop keeps true of its counters: [err] is the signed distance
    [dx² + dy² - r²], not positive while the loop runs, and [dx] is the
    largest column offset of row offset [dy] inside the disc. *)
Definition circ_inv (r : Z) (s : circ_state) : Prop :=
  c_plus s = 2 * c_dy s + 1 ∧
  c_minus s = 2 * c_dx s - 1 ∧
  c_err s = c_dx s * c_dx s + c_dy s * c_dy s - r * r ∧
  (c_dy s <= c_dx s → c_err s <= 0) ∧
  0 <= c_dy s ∧ c_dx s <= r ∧
  r * r < (c_dx s + 1) * (c_dx s + 1) + c_dy s * c_dy s.

(** What the loop keeps true of the image: nothing outside the disc was
    touched, and the rows already left behind are filled. *)
Definition img_inv (img0 : ndarray pixel) (cx cy r : Z) (color : pixel)
    (img : ndarray pixel) (s : circ_state) : Prop :=
  arr_rows img = arr_rows img0 ∧ arr_cols img = arr_cols img0 ∧
  well_formed img ∧
  ∀ i j, in_bounds img0 i j →
    (disc cx cy r i j = false → get_px img i j = get_px img0 i j) ∧
    (disc cx cy r i j = true →
     Z.abs (i - cy) < c_dy s ∨ c_dx s < Z.abs (i - cy) →
     get_px img i j = Some color).

(** Same size, same buffer length, and [P] on every pixel if it held before. *)
Definition keeps (P : pixel → Prop) (img img' : ndarray pixel) : Prop :=
  arr_rows img' = arr_rows img ∧ arr_cols img' = arr_cols img ∧
  length (arr_data img') = length (arr_data img) ∧
  (Forall P (arr_data img) → Forall P (arr_data img')).

(** The frame can be composed: the current picture is readable and the mask
    has its size. *)
Definition shown_ok (t : AnnotationTool) (w : World) : Prop :=
  ∃ f img, current_image t = inr f ∧
           imread_in (w_files w) f = Some img ∧
           shape img = shape (mask t).

(** The fields that say which image the session is on. *)
Definition same_image (t t' : AnnotationTool) : Prop :=
  img_files t' = img_files t ∧ save_dir t' = save_dir t ∧
  index t' = index t ∧ mask_path t' = mask_path t.

(** True at the top of every round. *)
Definition top_inv (t : AnnotationTool) : Prop :=
  0 <= brush_size t <= 50 ∧
  well_formed (mask t) ∧
  0 <= index t < Z.of_nat (length (img_files t)) ∧
  ∃ f, current_image t = inr f ∧ mask_path t = mask_path_of (save_dir t) f.

(** True while the session waits for a key. *)
Definition key_inv (t : AnnotationTool) (w : World) : Prop :=
  top_inv t ∧ w_trackbar w = brush_size t ∧ shown_ok t w.

(** The colour invariant, with the stored masks it rests on. *)
Definition bw_inv (t : AnnotationTool) (w : World) : Prop :=
  Forall bw (arr_data (mask t)) ∧ binary_files w.

(** ** A small session for the examples *)

Definition demo_picture : ndarray pixel :=
  NdArray 2 2 [(10, 20, 30); (40, 50, 60); (70, 80, 90); (1, 2, 3)].

(** One picture, one stored mask (of that picture), no save directory yet. *)
Definition demo_world : World :=
  mkWorld (<["images/a.png" := ImageFile demo_picture]>
           (<["outputs/a.npy" := NpyFile (NdArray 2 2 [0; 1; 1; 0])]> ∅))
          (<["images" := ["a.png"]]> ∅) 0.

(** The session constructed by [startup] on an empty command line. *)
Definition demo_tool : AnnotationTool :=
  mkTool "images" ["images/a.png"] "outputs" 0
         (NdArray 2 2 [black; white; white; black]) "outputs/a.npy" false 5 false.

Definition demo_world_top : World :=
  mkWorld (w_files demo_world) (<["outputs" := []]> (w_dirs demo_world)) 0.

Definition demo_world_key : World :=
  mkWorld (w_files demo_world) (<["outputs" := []]> (w_dirs demo_world)) 5.

(** ** The scenario of two pictures

    Two 10 x 10 pictures and no stored mask.  A stroke of brush size 2 at
    (5,5) on the first, then [d], then [a]: the session is back on the
    first picture with the disc reloaded, and the untouched mask of the
    second picture is stored as zeros. *)

Definition scenario_picture : ndarray pixel :=
  NdArray 10 10 (replicate 100 (90, 120, 200)).

Definition scenario_world : World :=
  mkWorld (<["images/a.png" := ImageFile scenario_picture]>
           (<["images/b.jpg" := ImageFile scenario_picture]> ∅))
          (<["images" := ["b.jpg"; "a.png"]]> ∅) 0.

Definition scenario_rounds : list (list gui_event * Z) :=
  [([TrackbarMove 2; MouseEvent EVENT_LBUTTONDOWN 5 5 0;
     MouseEvent EVENT_LBUTTONUP 5 5 0], key_d);
   ([], key_a)].

Definition scenario_run : Res AnnotationTool :=
  match startup [] scenario_world with
  | Ok (Some t) w => main scenario_rounds t w
  | Ok None w => Raise SystemExit w
  | Raise e w => Raise e w
  end.

(** The session of the scenario, as constructed and as it first waits. *)
Definition scenario_tool : AnnotationTool :=
  mkTool "images" ["images/a.png"; "images/b.jpg"] "outputs" 0
         (np_zeros (10%nat, 10%nat)) "outputs/a.npy" false 5 false.

Definition scenario_world_top : World :=
  mkWorld (w_files scenario_world) (<["outputs" := []]> (w_dirs scenario_world)) 0.

Definition scenario_world_key : World :=
  mkWorld (w_files scenario_world) (<["outputs" := []]> (w_dirs scenario_world)) 5.

(** A path that ends in [.npy]. *)
Definition npy_path (p : string) : Prop :=
  list_ascii_of_string ".npy" `suffix_of` list_ascii_of_string p.

(** A path as [glob] gives it for one of the three patterns of the
    constructor: a directory joined with a name that matches the pattern. *)
Definition picture_path (f : string) : Prop :=
  ∃ d n cl, f = path_join d n ∧
            cl ∈ [jpg_classes; jpeg_classes; png_classes] ∧
            match_ext cl n = true.

(** Each string is at most the next one. *)
Fixpoint ascending (l : list string) : Prop :=
  match l with
  | [] => True
  | x :: l' =>
      match l' with
      | [] => True
      | y :: _ => String.leb x y = true
      end ∧ ascending l'
  end.

(** The names of a directory that one of the three patterns accepts. *)
Definition is_picture_name (n : string) : bool :=
  match_ext jpg_classes n || match_ext jpeg_classes n || match_ext png_classes n.

(** * Proofs *)

#[local] Arguments imread_in : simpl never.
#[local] Arguments py_index : simpl never.
#[local] Arguments py_mod : simpl never.
#[local] Arguments mask_path_of : simpl never.
#[local] Arguments cv2_circle : simpl never.
#[local] Arguments clamp : simpl never.
#[local] Arguments stack3_times_255 : simpl never.
#[local] Arguments np_zeros : simpl never.
#[local] Arguments fill0 : simpl never.
#[local] Arguments makedirs : simpl never.
#[local] Arguments mkdir : simpl never.
#[local] Arguments glob_in : simpl never.
#[local] Arguments os_path_split : simpl never.
#[local] Arguments classify : simpl never.

(** From a goal [b1 = b2] on comparisons of integers to linear arithmetic. *)
Ltac bool_lia :=
  apply eq_true_iff_eq;
  repeat (rewrite orb_true_iff || rewrite andb_true_iff
          || rewrite Z.eqb_eq || rewrite Z.leb_le || rewrite Z.ltb_lt);
  lia.

(** Unfolds the monad of the script. *)
Ltac munfold :=
  unfold lift, mbind, M_bind, mret, M_ret, raise, get_world, put_files,
    put_dirs, put_trackbar in *.

(** ** Facts about the rasteriser *)

Lemma put_points_length d s n c : length (put_points d s n c) = length d.
Proof.
  revert d s. induction n as [|n IH]; intros d s; simpl; [done|].
  by rewrite IH, length_insert.
Qed.

Lemma put_points_lookup d s n c (k : nat) :
  put_points d s n c !! k =
  if decide ((s ≤ k < s + n)%nat ∧ (k < length d)%nat) then Some c else d !! k.
Proof.
  revert d s. induction n as [|n IH]; intros d s; simpl.
  - case_decide; [lia|done].
  - rewrite IH, length_insert.
    destruct (decide (k = s)) as [->|Hne].
    + repeat case_decide; try lia; try done.
      * by rewrite list_lookup_insert_eq by lia.
      * rewrite list_insert_ge by lia. done.
    + rewrite list_lookup_insert_ne by lia.
      repeat case_decide; try lia; done.
Qed.

Lemma painted_ext c P Q img img' :
  painted c P img img' →
  (∀ i j, in_bounds img i j → P i j = Q i j) →
  painted c Q img img'.
Proof.
  intros (Hr & Hc & Hw & Hp) HPQ. repeat split; try done.
  intros i j Hb. rewrite Hp by done. by rewrite HPQ.
Qed.

Lemma painted_trans c P Q a b d :
  painted c P a b → painted c Q b d →
  painted c (λ i j, P i j || Q i j) a d.
Proof.
  intros (Hr & Hc & Hw & Hp) (Hr' & Hc' & Hw' & Hp').
  repeat split; try congruence.
  intros i j Hb. rewrite Hp'.
  - rewrite Hp by done. destruct (P i j), (Q i j); done.
  - unfold in_bounds in *. rewrite Hr, Hc. done.
Qed.

Lemma painted_refl c img :
  well_formed img → painted c (λ _ _, false) img img.
Proof. intros Hw. repeat split; done. Qed.

Lemma get_px_in_bounds (img : ndarray pixel) i j :
  well_formed img → in_bounds img i j → is_Some (get_px img i j).
Proof.
  intros Hw [Hi Hj]. unfold get_px. apply lookup_lt_is_Some.
  red in Hw. rewrite Hw. nia.
Qed.

Lemma hline_spec img y x1 x2 c :
  well_formed img →
  x2 < x1 ∨ (0 <= y < Z.of_nat (arr_rows img) ∧ 0 <= x1 ∧ x2 < Z.of_nat (arr_cols img)) →
  ∃ img', hline img y x1 x2 c = Some img' ∧ painted c (on_run y x1 x2) img img'.
Proof.
  intros Hw Hcase. unfold hline.
  destruct (Z.ltb_spec x2 x1) as [Hlt|Hge].
  - exists img. split; [done|].
    eapply painted_ext; [by apply painted_refl|].
    intros i j _. unfold on_run. symmetry.
    destruct (Z.leb_spec x1 j), (Z.leb_spec j x2); rewrite ?andb_false_r; try done. lia.
  - destruct Hcase as [?|(Hy & Hx1 & Hx2)]; [lia|].
    replace ((0 <=? y) && (y <? Z.of_nat (arr_rows img)) && (0 <=? x1)
             && (x2 <? Z.of_nat (arr_cols img))) with true
      by (symmetry; rewrite !andb_true_iff, !Z.leb_le, !Z.ltb_lt; lia).
    eexists. split; [done|].
    red in Hw. repeat split; simpl; try done.
    + red. simpl. by rewrite put_points_length.
    + intros i j [Hi Hj]. unfold get_px, on_run. simpl.
      rewrite put_points_lookup, Hw.
      set (W := Z.of_nat (arr_cols img)) in *.
      case_decide as Hd.
      * destruct Hd as [[Hlo Hhi] _].
        assert (i = y) as -> by nia.
        rewrite Z.eqb_refl. simpl.
        destruct (Z.leb_spec x1 j), (Z.leb_spec j x2); simpl; try done; lia.
      * destruct (Z.eqb_spec i y) as [->|]; simpl; [|done].
        destruct (Z.leb_spec x1 j), (Z.leb_spec j x2); simpl; try done.
        exfalso. apply Hd. split; [nia|]. nia.
Qed.

Lemma painted_wf c P a b : painted c P a b → well_formed b.
Proof. by intros (_ & _ & ? & _). Qed.

Lemma painted_rows c P a b : painted c P a b → arr_rows b = arr_rows a.
Proof. by intros (? & _). Qed.

Lemma painted_cols c P a b : painted c P a b → arr_cols b = arr_cols a.
Proof. by intros (_ & ? & _). Qed.

(** A run of the unclipped branch. *)
Lemma hline_row img y cx d c :
  well_formed img →
  0 <= y < Z.of_nat (arr_rows img) →
  0 <= cx - d → cx + d < Z.of_nat (arr_cols img) →
  ∃ img', hline img y (cx - d) (cx + d) c = Some img' ∧
          painted c (on_row y cx d) img img'.
Proof.
  intros Hw Hy Hl Hr.
  destruct (hline_spec img y (cx - d) (cx + d) c Hw) as (img' & E & P);
    [right; lia|].
  exists img'. split; [done|].
  eapply painted_ext; [exact P|].
  intros i j _. unfold on_run, on_row. bool_lia.
Qed.

(** A run of the clipped branch. *)
Lemma hline_if_row img y cx d c :
  well_formed img →
  cx - d < Z.of_nat (arr_cols img) → 0 <= cx + d →
  ∃ img', hline_if (row_ok img y) img y (Z.max (cx - d) 0)
            (Z.min (cx + d) (Z.of_nat (arr_cols img) - 1)) c = Some img' ∧
          painted c (on_row y cx d) img img'.
Proof.
  intros Hw Hl Hr. unfold hline_if, row_ok.
  destruct ((0 <=? y) && (y <? Z.of_nat (arr_rows img))) eqn:Hy.
  - rewrite andb_true_iff, Z.leb_le, Z.ltb_lt in Hy.
    destruct (hline_spec img y (Z.max (cx - d) 0)
                (Z.min (cx + d) (Z.of_nat (arr_cols img) - 1)) c Hw)
      as (img' & E & P); [right; lia|].
    exists img'. split; [done|].
    eapply painted_ext; [exact P|].
    intros i j [_ Hj]. unfold on_run, on_row. bool_lia.
  - exists img. split; [done|].
    eapply painted_ext; [by apply painted_refl|].
    intros i j [Hi _]. unfold on_row.
    apply andb_false_iff in Hy. rewrite Z.leb_gt, Z.ltb_ge in Hy.
    destruct (Z.eqb_spec i y); [lia|done].
Qed.

Lemma span_rows cx cy dx dy i j :
  0 <= dy → 0 <= dx →
  on_row (cy - dy) cx dx i j || on_row (cy + dy) cx dx i j
  || on_row (cy - dx) cx dy i j || on_row (cy + dx) cx dy i j
  = span cx cy dx dy i j.
Proof.
  intros Hdy Hdx. unfold on_row, span.
  generalize (Z.abs (j - cx) <=? dx) (Z.abs (j - cx) <=? dy). intros A B.
  destruct A, B; rewrite ?andb_true_r, ?andb_false_r, ?orb_false_r; simpl;
    try done; bool_lia.
Qed.

Lemma circle_body_spec img cx cy r color s :
  well_formed img →
  0 <= c_dy s <= c_dx s → c_dx s <= r →
  ∃ img', circle_body img cx cy (circle_inside img cx cy r) color s = Some img' ∧
          painted color (span cx cy (c_dx s) (c_dy s)) img img'.
Proof.
  intros Hw Hdy Hdx. unfold circle_body.
  set (dx := c_dx s) in *. set (dy := c_dy s) in *.
  destruct (circle_inside img cx cy r) eqn:Hin.
  - unfold circle_inside in Hin.
    rewrite !andb_true_iff, !Z.leb_le, !Z.ltb_lt in Hin.
    destruct (hline_row img (cy - dy) cx dx color Hw)
      as (i1 & -> & P1); [lia..|]. simpl.
    pose proof (painted_rows _ _ _ _ P1) as R1.
    pose proof (painted_cols _ _ _ _ P1) as C1.
    destruct (hline_row i1 (cy + dy) cx dx color (painted_wf _ _ _ _ P1))
      as (i2 & -> & P2); [lia..|]. simpl.
    pose proof (painted_rows _ _ _ _ P2) as R2.
    pose proof (painted_cols _ _ _ _ P2) as C2.
    destruct (hline_row i2 (cy - dx) cx dy color (painted_wf _ _ _ _ P2))
      as (i3 & -> & P3); [lia..|]. simpl.
    pose proof (painted_rows _ _ _ _ P3) as R3.
    pose proof (painted_cols _ _ _ _ P3) as C3.
    destruct (hline_row i3 (cy + dx) cx dy color (painted_wf _ _ _ _ P3))
      as (i4 & -> & P4); [lia..|].
    exists i4. split; [done|].
    eapply painted_ext.
    { eapply painted_trans; [|exact P4].
      eapply painted_trans; [|exact P3].
      eapply painted_trans; [exact P1|exact P2]. }
    intros i j _. apply span_rows; lia.
  - set (W := Z.of_nat (arr_cols img)). set (H := Z.of_nat (arr_rows img)).
    destruct ((cx - dx <? W) && (0 <=? cx + dx) && (cy - dx <? H) && (0 <=? cy + dx))
      eqn:Hout.
    + rewrite !andb_true_iff, !Z.leb_le, !Z.ltb_lt in Hout.
      destruct (hline_if_row img (cy - dy) cx dx color Hw)
        as (i1 & E1 & P1); [lia..|].
      fold W in E1. rewrite E1. simpl.
      pose proof (painted_cols _ _ _ _ P1) as C1.
      destruct (hline_if_row i1 (cy + dy) cx dx color (painted_wf _ _ _ _ P1))
        as (i2 & E2 & P2); [lia..|].
      rewrite C1 in E2. fold W in E2. rewrite E2. simpl.
      pose proof (painted_cols _ _ _ _ P2) as C2.
      destruct ((cx - dy <? W) && (0 <=? cx + dy)) eqn:Hout2.
      * rewrite !andb_true_iff, !Z.leb_le, !Z.ltb_lt in Hout2.
        destruct (hline_if_row i2 (cy - dx) cx dy color (painted_wf _ _ _ _ P2))
          as (i3 & E3 & P3); [lia..|].
        rewrite C2, C1 in E3. fold W in E3. rewrite E3. simpl.
        pose proof (painted_cols _ _ _ _ P3) as C3.
        destruct (hline_if_row i3 (cy + dx) cx dy color (painted_wf _ _ _ _ P3))
          as (i4 & E4 & P4); [lia..|].
        rewrite C3, C2, C1 in E4. fold W in E4. rewrite E4.
        exists i4. split; [done|].
        eapply painted_ext.
        { eapply painted_trans; [|exact P4].
          eapply painted_trans; [|exact P3].
          eapply painted_trans; [exact P1|exact P2]. }
        intros i j _. apply span_rows; lia.
      * exists i2. split; [done|].
        eapply painted_ext; [eapply painted_trans; [exact P1|exact P2]|].
        intros i j [Hi Hj]. rewrite <- span_rows by lia.
        apply andb_false_iff in Hout2. rewrite Z.ltb_ge, Z.leb_gt in Hout2.
        fold W in Hj.
        assert ((Z.abs (j - cx) <=? dy) = false) as Hf
          by (apply Z.leb_gt; lia).
        unfold on_row. rewrite Hf, !andb_false_r, !orb_false_r. done.
    + exists img. split; [done|].
      eapply painted_ext; [by apply painted_refl|].
      intros i j [Hi Hj]. unfold span. fold W in Hj. fold H in Hi.
      rewrite !andb_false_iff, !Z.ltb_ge, !Z.leb_gt in Hout.
      symmetry. apply not_true_is_false.
      rewrite orb_true_iff, !andb_true_iff, !Z.eqb_eq, !Z.leb_le. lia.
Qed.

Lemma circ_inv_init r : 0 <= r → circ_inv r (circle_init r).
Proof.
  intros Hr. unfold circ_inv, circle_init. simpl.
  rewrite Z.shiftl_mul_pow2 by lia. change (2 ^ 1) with 2.
  repeat split; nia.
Qed.

Lemma circle_next_spec r s :
  circ_inv r s → c_dy s <= c_dx s →
  circ_inv r (circle_next s) ∧
  c_dy (circle_next s) = c_dy s + 1 ∧
  ((c_dx (circle_next s) = c_dx s ∧
    c_dx s * c_dx s + (c_dy s + 1) * (c_dy s + 1) <= r * r)
   ∨ (c_dx (circle_next s) = c_dx s - 1 ∧
      r * r < c_dx s * c_dx s + (c_dy s + 1) * (c_dy s + 1))).
Proof.
  intros (Hp & Hm & He & Hle & Hdy & Hdx & Hmax) Hrun.
  unfold circle_next, circ_inv.
  destruct (Z.leb_spec (c_err s + c_plus s) 0) as [Hn|Hn]; simpl.
  - change (1 - 1) with 0. rewrite Z.land_0_r. change (Z.land 0 2) with 0.
    split; [repeat split; nia|]. split; [done|]. left. split; nia.
  - change (0 - 1) with (-1).
    rewrite Z.land_m1_r. change (Z.land (-1) 2) with 2.
    split; [repeat split; nia|]. split; [done|]. right. split; nia.
Qed.

Section CircleLoop.
Variables (img0 : ndarray pixel) (cx cy r : Z) (color : pixel).

Lemma span_in_disc s i j :
  circ_inv r s → c_dy s <= c_dx s →
  span cx cy (c_dx s) (c_dy s) i j = true → disc cx cy r i j = true.
Proof.
  intros (Hp & Hm & He & Hle & Hdy & Hdx & Hmax) Hrun. unfold span, disc.
  rewrite orb_true_iff, !andb_true_iff, !Z.eqb_eq, !Z.leb_le.
  specialize (Hle Hrun). nia.
Qed.

Lemma img_inv_step img img' s :
  circ_inv r s → c_dy s <= c_dx s →
  img_inv img0 cx cy r color img s →
  painted color (span cx cy (c_dx s) (c_dy s)) img img' →
  img_inv img0 cx cy r color img' (circle_next s).
Proof.
  intros Hc Hrun (Hr & Hcol & Hw & Hpx) (Hr' & Hcol' & Hw' & Hp).
  destruct (circle_next_spec r s Hc Hrun) as (_ & Hdy' & Hdx').
  pose proof (span_in_disc s) as Hsd.
  destruct Hc as (Hc1 & Hc2 & Hc3 & Hc4 & Hdy & Hdx & Hmax).
  split; [congruence|]. split; [congruence|]. split; [done|].
  intros i j Hb.
  rewrite Hp by (unfold in_bounds in *; rewrite Hr, Hcol; done).
  destruct (Hpx i j Hb) as [Hout Hin].
  destruct (span cx cy (c_dx s) (c_dy s) i j) eqn:Hs.
  - split; [|done]. intros Hd.
    rewrite (Hsd i j) in Hd; [done| |done|done].
    by repeat split.
  - split; [done|]. intros Hd Hrow. apply Hin; [done|].
    unfold span in Hs. unfold disc in Hd. apply Z.leb_le in Hd.
    apply orb_false_iff in Hs. destruct Hs as [Hs1 Hs2].
    rewrite andb_false_iff, Z.eqb_neq, Z.leb_gt in Hs1, Hs2.
    pose proof (Z.abs_square (j - cx)) as Ha.
    pose proof (Z.abs_square (i - cy)) as Hb'.
    pose proof (Z.abs_nonneg (j - cx)).
    pose proof (Z.abs_nonneg (i - cy)).
    set (A := Z.abs (j - cx)) in *. set (B := Z.abs (i - cy)) in *.
    rewrite <- Ha, <- Hb' in Hd. rewrite Hdy' in Hrow.
    destruct (Z.lt_trichotomy B (c_dy s)) as [?|[HB|?]]; [by left| |].
    + exfalso. destruct Hs1 as [?|Hs1]; [done|]. nia.
    + destruct (Z.lt_trichotomy (c_dx s) B) as [?|[HB|?]]; [by right| |].
      * exfalso. destruct Hs2 as [?|Hs2]; [lia|].
        destruct Hdx' as [[Hdx' _]|[_ Hgt]]; [lia|]. nia.
      * exfalso. destruct Hdx' as [[Hdx' _]|[Hdx' _]]; lia.
Qed.

Lemma circle_loop_spec fuel : ∀ img s,
  circ_inv r s → img_inv img0 cx cy r color img s →
  (Z.to_nat (c_dx s - c_dy s + 1) ≤ fuel)%nat →
  ∃ img', circle_loop fuel img cx cy (circle_inside img0 cx cy r) color s
          = Some img' ∧
          painted color (disc cx cy r) img0 img'.
Proof.
  induction fuel as [|fuel IH]; intros img s Hc Hi Hfuel.
  - simpl. destruct (Z.ltb_spec (c_dx s) (c_dy s)) as [Hexit|Hrun]; [|lia].
    exists img. split; [done|].
    destruct Hi as (Hr & Hcol & Hw & Hpx). repeat split; try done.
    intros i j Hb. destruct (Hpx i j Hb) as [Hout Hin].
    destruct (disc cx cy r i j); [apply Hin; [done|lia]|by apply Hout].
  - simpl. destruct (Z.ltb_spec (c_dx s) (c_dy s)) as [Hexit|Hrun].
    + exists img. split; [done|].
      destruct Hi as (Hr & Hcol & Hw & Hpx). repeat split; try done.
      intros i j Hb. destruct (Hpx i j Hb) as [Hout Hin].
      destruct (disc cx cy r i j); [apply Hin; [done|lia]|by apply Hout].
    + assert (circle_inside img0 cx cy r = circle_inside img cx cy r) as ->.
      { destruct Hi as (Hr & Hcol & _). unfold circle_inside.
        by rewrite Hr, Hcol. }
      destruct (circle_body_spec img cx cy r color s) as (img1 & -> & P1).
      { by destruct Hi as (_ & _ & ? & _). }
      { destruct Hc as (_ & _ & _ & _ & ? & _). lia. }
      { by destruct Hc as (_ & _ & _ & _ & _ & ? & _). }
      destruct (circle_next_spec r s Hc Hrun) as (Hc' & Hdy' & Hdx').
      assert (circle_inside img cx cy r = circle_inside img0 cx cy r) as ->.
      { destruct Hi as (Hr & Hcol & _). unfold circle_inside.
        by rewrite Hr, Hcol. }
      apply IH; [done|by eapply img_inv_step|].
      destruct Hdx' as [[-> _]|[-> _]]; rewrite Hdy'; lia.
Qed.
End CircleLoop.

Lemma Circle_spec img cx cy r color :
  well_formed img → 0 <= r →
  ∃ img', Circle img cx cy r color = Some img' ∧
          painted color (disc cx cy r) img img'.
Proof.
  intros Hw Hr. unfold Circle.
  apply circle_loop_spec;
    [by apply circ_inv_init| |unfold circle_init; cbn [c_dx c_dy]; lia].
  split; [done|]. split; [done|]. split; [done|].
  intros i j _. split; [done|].
  unfold circle_init, disc. cbn [c_dx c_dy]. rewrite Z.leb_le.
  intros Hd Hrow. exfalso.
  pose proof (Z.abs_square (i - cy)) as Hsq.
  pose proof (Z.abs_nonneg (i - cy)).
  pose proof (Z.square_nonneg (j - cx)).
  set (B := Z.abs (i - cy)) in *. rewrite <- Hsq in Hd.
  destruct Hrow as [?|Hlt]; [lia|].
  assert (r * r < B * B) by nia. lia.
Qed.

(** ** Pixels and arrays *)

Lemma bgr2gray_gray v : bgr2gray (v, v, v) = v.
Proof.
  unfold bgr2gray. rewrite Z.shiftr_div_pow2 by lia.
  change (Z.shiftl 1 13) with 8192. change (2 ^ 14) with 16384.
  symmetry. apply (Z.div_unique _ _ _ 8192); lia.
Qed.

Lemma roundtrip_px p : bw p → expand_px (threshold (bgr2gray p)) = p.
Proof. by intros [-> | ->]. Qed.

Lemma threshold_binary g : binary (threshold g).
Proof. unfold threshold, binary. destruct (0 <? g); auto. Qed.

Lemma expand_px_bw v : binary v → bw (expand_px v).
Proof. intros [-> | ->]; [by left|by right]. Qed.

Lemma threshold_black : threshold (bgr2gray black) = 0.
Proof. reflexivity. Qed.

Lemma collapse_shape m : shape (collapse m) = shape m.
Proof. reflexivity. Qed.

Lemma collapse_binary m : Forall binary (arr_data (collapse m)).
Proof.
  unfold collapse, amap. simpl. rewrite Forall_forall. intros v Hv.
  apply list_elem_of_fmap in Hv as (g & -> & _). apply threshold_binary.
Qed.

Lemma roundtrip_array m :
  Forall bw (arr_data m) → stack3_times_255 (collapse m) = m.
Proof.
  destruct m as [h w d]. unfold stack3_times_255, collapse, amap. simpl.
  intros Hd. f_equal. induction Hd as [|p d Hp _ IH]; simpl; [done|].
  by rewrite roundtrip_px, IH.
Qed.

Lemma np_zeros_bw sh : Forall bw (arr_data (np_zeros sh)).
Proof.
  unfold np_zeros. simpl. apply Forall_forall. intros p Hp.
  apply elem_of_replicate in Hp as [-> _]. by left.
Qed.

Lemma np_zeros_wf sh : well_formed (np_zeros sh).
Proof. unfold well_formed, np_zeros. simpl. by rewrite length_replicate. Qed.

Lemma stack3_bw b : Forall binary (arr_data b) → Forall bw (arr_data (stack3_times_255 b)).
Proof.
  unfold stack3_times_255, amap. simpl. intros Hb.
  induction Hb; simpl; constructor; auto using expand_px_bw.
Qed.

Lemma amap_wf {A B} (f : A → B) a : well_formed a → well_formed (amap f a).
Proof. unfold well_formed, amap. simpl. by rewrite length_map. Qed.

Lemma fill0_bw m : Forall bw (arr_data (fill0 m)).
Proof.
  unfold fill0, amap. simpl. apply Forall_forall. intros p Hp.
  apply list_elem_of_fmap in Hp as (q & -> & _). by left.
Qed.

Lemma collapse_fill0 m : Forall (λ v, v = 0) (arr_data (collapse (fill0 m))).
Proof.
  unfold collapse, fill0, amap. simpl. apply Forall_forall. intros v Hv.
  apply list_elem_of_fmap in Hv as (g & -> & Hg).
  apply list_elem_of_fmap in Hg as (p & -> & Hp).
  apply list_elem_of_fmap in Hp as (q & -> & _). reflexivity.
Qed.

(** ** What a stamp keeps, whatever the buffer *)

Section Keeps.
Variables (P : pixel → Prop) (color : pixel).
Hypothesis Hcolor : P color.

Lemma keeps_refl img : keeps P img img.
Proof. by repeat split. Qed.

Lemma keeps_trans a b c : keeps P a b → keeps P b c → keeps P a c.
Proof.
  intros (? & ? & ? & ?) (? & ? & ? & ?). repeat split; try congruence. auto.
Qed.

Lemma put_points_Forall d s n : Forall P d → Forall P (put_points d s n color).
Proof.
  revert d s. induction n as [|n IH]; intros d s Hd; simpl; [done|].
  apply IH. destruct (decide (s < length d)%nat).
  - by apply Forall_insert.
  - by rewrite list_insert_ge by lia.
Qed.

Lemma hline_keeps img y x1 x2 img' :
  hline img y x1 x2 color = Some img' → keeps P img img'.
Proof.
  unfold hline. destruct (x2 <? x1); [intros [= <-]; apply keeps_refl|].
  destruct (_ && _); [|done]. intros [= <-].
  repeat split; simpl; [by rewrite put_points_length|apply put_points_Forall].
Qed.

Lemma hline_if_keeps b img y x1 x2 img' :
  hline_if b img y x1 x2 color = Some img' → keeps P img img'.
Proof.
  destruct b; simpl; [apply hline_keeps|intros [= <-]; apply keeps_refl].
Qed.

Lemma circle_body_keeps img cx cy inside s img' :
  circle_body img cx cy inside color s = Some img' → keeps P img img'.
Proof.
  unfold circle_body. destruct inside.
  - intros H.
    apply bind_Some in H as (i1 & H1%hline_keeps & H).
    apply bind_Some in H as (i2 & H2%hline_keeps & H).
    apply bind_Some in H as (i3 & H3%hline_keeps & H4%hline_keeps).
    exact (keeps_trans _ _ _ (keeps_trans _ _ _ (keeps_trans _ _ _ H1 H2) H3) H4).
  - destruct (_ && _); [|intros [= <-]; apply keeps_refl].
    intros H.
    apply bind_Some in H as (i1 & H1%hline_if_keeps & H).
    apply bind_Some in H as (i2 & H2%hline_if_keeps & H).
    pose proof (keeps_trans _ _ _ H1 H2) as H12.
    destruct (_ && _).
    + apply bind_Some in H as (i3 & H3%hline_if_keeps & H4%hline_if_keeps).
      exact (keeps_trans _ _ _ (keeps_trans _ _ _ H12 H3) H4).
    + by injection H as <-.
Qed.

Lemma circle_loop_keeps fuel : ∀ img cx cy inside s img',
  circle_loop fuel img cx cy inside color s = Some img' → keeps P img img'.
Proof.
  induction fuel as [|fuel IH]; intros img cx cy inside s img'; simpl.
  - destruct (c_dx s <? c_dy s); [intros [= <-]; apply keeps_refl|done].
  - destruct (c_dx s <? c_dy s); [intros [= <-]; apply keeps_refl|].
    destruct (circle_body img cx cy inside color s) as [img1|] eqn:Hb; [|done].
    intros H. eapply keeps_trans; [by eapply circle_body_keeps|by eapply IH].
Qed.

Lemma cv2_circle_keeps img x y r img' :
  cv2_circle img x y r color = inr img' → keeps P img img'.
Proof.
  unfold cv2_circle, Circle. destruct (r <? 0); [done|].
  destruct (circle_loop _ _ _ _ _ _ _) as [i|] eqn:H; [|done].
  intros [= <-]. by eapply circle_loop_keeps.
Qed.
End Keeps.

(** ** The session's operations, one by one *)

Lemma update_window_world t w : world_of (update_window t w) = w.
Proof.
  unfold update_window, cv2_imread, cv2_addWeighted_check. munfold.
  destruct (py_index _ _); simpl; [done|].
  destruct (imread_in _ _); simpl; [|done]. by case_bool_decide.
Qed.

Lemma update_window_inv t w u w' :
  update_window t w = Ok u w' → w' = w ∧ shown_ok t w.
Proof.
  intros H. pose proof (update_window_world t w) as Hw.
  rewrite H in Hw. simpl in Hw. split; [done|].
  revert H. unfold update_window, cv2_imread, cv2_addWeighted_check, shown_ok,
    current_image. munfold.
  destruct (py_index _ _) as [|f]; simpl; [done|].
  destruct (imread_in _ _) as [img|] eqn:Hi; simpl; [|done].
  case_bool_decide; [|done]. intros _. by exists f, img.
Qed.

Lemma update_window_ok t w : shown_ok t w → update_window t w = Ok tt w.
Proof.
  intros (f & img & Hf & Hi & Hs).
  unfold update_window, cv2_imread, cv2_addWeighted_check, current_image in *.
  munfold. rewrite Hf. simpl. rewrite Hi. simpl. by rewrite bool_decide_true.
Qed.

Lemma save_mask_ok t w :
  is_empty (mask t) = false →
  save_mask t w = Ok tt (saved w (mask_path t) (collapse (mask t))).
Proof.
  intros He. unfold save_mask, cv2_cvtColor_BGR2GRAY, np_save. munfold.
  by rewrite He.
Qed.

Lemma save_mask_inv t w u w' :
  save_mask t w = Ok u w' →
  is_empty (mask t) = false ∧ w' = saved w (mask_path t) (collapse (mask t)).
Proof.
  unfold save_mask, cv2_cvtColor_BGR2GRAY, np_save. munfold.
  destruct (is_empty (mask t)); simpl; [done|]. by intros [= <- <-].
Qed.

Lemma initialize_mask_world t w : world_of (initialize_mask t w) = w.
Proof.
  unfold initialize_mask, path_exists, np_load, cv2_imread. munfold. simpl.
  destruct (py_index _ _); simpl; [done|].
  destruct (_ || _); simpl.
  - destruct (w_files w !! _) as [[a| |]|]; simpl; try done.
    by case_bool_decide.
  - destruct (imread_in _ _); done.
Qed.

(** What [initialize_mask] leaves: the path of the current image's mask file
    and a mask that is either the stored one, expanded, or all zero with the
    size of the picture. *)
Lemma initialize_mask_inv t w t' w' :
  initialize_mask t w = Ok t' w' →
  w' = w ∧
  ∃ f m, current_image t = inr f ∧
         t' = set_mask (set_mask_path t (mask_path_of (save_dir t) f)) m ∧
         ((∃ b, w_files w !! mask_path_of (save_dir t) f = Some (NpyFile b) ∧
                well_formed b ∧ m = stack3_times_255 b)
          ∨ (w_files w !! mask_path_of (save_dir t) f = None ∧
             ∃ img, imread_in (w_files w) f = Some img ∧ m = np_zeros (shape img))).
Proof.
  intros H. pose proof (initialize_mask_world t w) as Hw.
  rewrite H in Hw. simpl in Hw. split; [done|].
  revert H. unfold initialize_mask, path_exists, np_load, cv2_imread,
    current_image. munfold. simpl.
  destruct (py_index _ _) as [|f]; simpl; [done|].
  destruct (bool_decide (is_Some (w_files w !! _))) eqn:Hex; simpl.
  - apply bool_decide_eq_true in Hex as [fl Hfl]. rewrite Hfl.
    destruct fl as [b| |]; simpl; try done.
    case_bool_decide; [|done]. intros [= <- _].
    exists f, (stack3_times_255 b). split; [done|]. split; [done|].
    left. eauto.
  - apply bool_decide_eq_false in Hex.
    assert (w_files w !! mask_path_of (save_dir t) f = None) as Hn.
    { destruct (w_files w !! _) eqn:E; [|done]. destruct Hex. eauto. }
    destruct (bool_decide (is_Some (w_dirs w !! _))); simpl.
    + rewrite Hn. done.
    + destruct (imread_in _ _) as [img|] eqn:Hi; [|done].
      intros [= <- _]. exists f, (np_zeros (shape img)).
      split; [done|]. split; [done|]. right. eauto.
Qed.

Lemma imread_in_wf files f img :
  imread_in files f = Some img → well_formed img ∧ is_empty img = false.
Proof.
  unfold imread_in. destruct (files !! f) as [[| m |]|]; try done.
  destruct (is_empty m) eqn:He; simpl; [done|].
  case_bool_decide; simpl; [|done]. by intros [= <-].
Qed.

Lemma py_index_range {A} (l : list A) i a :
  py_index l i = inr a → - Z.of_nat (length l) <= i < Z.of_nat (length l).
Proof.
  unfold py_index. destruct (Z.ltb_spec i 0);
    destruct (_ && _) eqn:Hb; try done;
    rewrite andb_true_iff, Z.leb_le, Z.ltb_lt in Hb; lia.
Qed.

Lemma py_index_ok {A} (l : list A) i :
  0 <= i < Z.of_nat (length l) →
  ∃ a, py_index l i = inr a ∧ l !! Z.to_nat i = Some a.
Proof.
  intros Hi. unfold py_index.
  destruct (Z.ltb_spec i 0); [lia|].
  destruct (Z.leb_spec 0 i); [|lia]. destruct (Z.ltb_spec i (Z.of_nat (length l))); [|lia].
  simpl. destruct (lookup_lt_is_Some_2 l (Z.to_nat i)) as [a Ha]; [lia|].
  exists a. by rewrite Ha.
Qed.

(** ** Invariants of the session *)

Lemma keeps_wf P a b : keeps P a b → well_formed a → well_formed b.
Proof. intros (Hr & Hc & Hl & _). unfold well_formed. congruence. Qed.

Lemma keeps_shape P a b : keeps P a b → shape b = shape a.
Proof. intros (Hr & Hc & _). unfold shape. congruence. Qed.

Lemma draw_mask_inv event x y flags t w t' w' :
  draw_mask event x y flags t w = Ok t' w' →
  w' = w ∧ same_image t t' ∧ brush_size t' = w_trackbar w ∧
  eraser_mode t' = eraser_mode t ∧
  ((mask t' = mask t ∧
    drawing t' = (if event =? EVENT_LBUTTONUP then false else drawing t))
   ∨ (cv2_circle (mask t) x y (w_trackbar w)
        (if eraser_mode t then black else white) = inr (mask t') ∧
      shown_ok t' w ∧ drawing t' = true ∧
      (event = EVENT_LBUTTONDOWN ∨ event = EVENT_MOUSEMOVE ∧ drawing t = true))).
Proof.
  unfold draw_mask, cv2_getTrackbarPos. munfold. simpl.
  destruct (Z.eqb_spec event EVENT_LBUTTONDOWN) as [->|Hd].
  - destruct (cv2_circle _ _ _ _ _) as [|m] eqn:Hc; simpl; [done|].
    destruct (update_window _ _) as [u w1|] eqn:Hu; [|done].
    apply update_window_inv in Hu as [-> Hs]. intros [= <- <-].
    repeat split; try done. right. repeat split; try done. by left.
  - destruct (Z.eqb_spec event EVENT_LBUTTONUP) as [->|Hu'].
    + intros [= <- <-]. repeat split; try done. by left.
    + destruct (Z.eqb_spec event EVENT_MOUSEMOVE) as [->|Hm].
      * destruct (drawing t) eqn:Hdr.
        -- destruct (cv2_circle _ _ _ _ _) as [|m] eqn:Hc; simpl; [done|].
           destruct (update_window _ _) as [u w1|] eqn:Hu; [|done].
           apply update_window_inv in Hu as [-> Hs]. intros [= <- <-].
           repeat split; try done. right. repeat split; try done. by right.
        -- intros [= <- <-]. repeat split; try done. left. by split.
      * intros [= <- <-]. repeat split; try done. by left.
Qed.

Lemma shown_ok_same t t' w w' :
  img_files t' = img_files t → index t' = index t →
  shape (mask t') = shape (mask t) → w_files w' = w_files w →
  shown_ok t w → shown_ok t' w'.
Proof.
  intros Hf Hi Hm Hw (f & img & H1 & H2 & H3). exists f, img.
  unfold current_image in *. rewrite Hf, Hi, Hm, Hw. done.
Qed.

Lemma bw_color (b : bool) : bw (if b then black else white).
Proof. destruct b; [by left|by right]. Qed.

Lemma on_event_inv ev t w t' w' :
  key_inv t w → on_event ev t w = Ok t' w' →
  key_inv t' w' ∧ w_files w' = w_files w ∧ same_image t t' ∧
  (Forall bw (arr_data (mask t)) → Forall bw (arr_data (mask t'))).
Proof.
  intros ((Hb & Hw & Hi & f & Hf & Hp) & Htb & Hs). destruct ev as [e x y fl|p]; simpl.
  - intros H. apply draw_mask_inv in H
      as (-> & (Hfs & Hsd & Hix & Hmp) & Hbr & _ & Hcase).
    assert (keeps bw (mask t) (mask t')) as Hk.
    { destruct Hcase as [[-> _]|(Hc & _)]; [apply keeps_refl|].
      exact (cv2_circle_keeps bw _ (bw_color _) _ _ _ _ _ Hc). }
    split; [|by destruct Hk as (_ & _ & _ & ?)].
    repeat split; try lia; try congruence.
    + by eapply keeps_wf.
    + rewrite Hix, Hfs. lia.
    + exists f. unfold current_image in *. rewrite Hfs, Hix, Hmp, Hsd. done.
    + eapply shown_ok_same; [done|done| |done|done]. by eapply keeps_shape.
  - munfold. intros [= <- <-]. unfold key_inv, top_inv, same_image. simpl.
    unfold clamp. repeat split; try done; try lia.
    by exists f.
Qed.

Lemma dispatch_inv evs : ∀ t w t' w',
  key_inv t w → dispatch evs t w = Ok t' w' →
  key_inv t' w' ∧ w_files w' = w_files w ∧ same_image t t' ∧
  (Forall bw (arr_data (mask t)) → Forall bw (arr_data (mask t'))).
Proof.
  induction evs as [|ev evs IH]; intros t w t' w' Hk; simpl.
  - munfold. intros [= <- <-].
    split; [done|]. split; [done|]. split; [by repeat split|done].
  - munfold. destruct (on_event ev t w) as [t1 w1|] eqn:He; [|done].
    intros Hd. apply on_event_inv in He as (Hk1 & Hw1 & (?&?&?&?) & Hbw1); [|done].
    apply IH in Hd as (Hk2 & Hw2 & (?&?&?&?) & Hbw2); [|done].
    split; [done|]. split; [congruence|].
    split; [repeat split; congruence|auto].
Qed.

Lemma wait_key_inv evs t w t' w' :
  top_inv t → wait_key evs t w = Ok t' w' →
  key_inv t' w' ∧ w_files w' = w_files w ∧ same_image t t' ∧
  (Forall bw (arr_data (mask t)) → Forall bw (arr_data (mask t'))).
Proof.
  intros Ht. unfold wait_key, cv2_createTrackbar. munfold. simpl.
  destruct (update_window _ _) as [u w1|] eqn:Hu; [|done].
  apply update_window_inv in Hu as [-> Hs].
  intros Hd. apply dispatch_inv in Hd; [done|].
  split; [done|]. split; [|done].
  simpl. destruct Ht as (Hb & _). unfold clamp. lia.
Qed.

Lemma initialize_mask_top t w t' w' :
  initialize_mask t w = Ok t' w' →
  0 <= brush_size t <= 50 →
  0 <= index t < Z.of_nat (length (img_files t)) →
  w' = w ∧ top_inv t' ∧ (binary_files w → Forall bw (arr_data (mask t'))).
Proof.
  intros H Hb Hi. apply initialize_mask_inv in H as (-> & f & m & Hf & -> & Hm).
  split; [done|]. unfold top_inv. simpl. split.
  - split; [done|]. split; [|split; [done|by exists f]].
    destruct Hm as [(b & _ & Hwf & ->)|(_ & img & _ & ->)];
      [by apply amap_wf|apply np_zeros_wf].
  - intros Hbin.
    destruct Hm as [(b & Hfile & _ & ->)|(_ & img & _ & ->)];
      [|apply np_zeros_bw].
    apply stack3_bw. by eapply Hbin.
Qed.

Lemma keeps_files_bind {A B} (m : M A) (f : A → M B) :
  keeps_files m → (∀ a, keeps_files (f a)) → keeps_files (m ≫= f).
Proof.
  intros Hm Hf w. unfold mbind, M_bind. specialize (Hm w).
  destruct (m w) as [a w1|e w1]; simpl in *; [|done]. by rewrite Hf.
Qed.

Lemma keeps_files_ret {A} (a : A) : keeps_files (mret a : M A).
Proof. done. Qed.

Lemma keeps_files_raise {A} e : keeps_files (raise e : M A).
Proof. done. Qed.

Lemma keeps_files_put_dirs d : keeps_files (put_dirs d).
Proof. done. Qed.

Lemma keeps_files_get_world : keeps_files get_world.
Proof. done. Qed.

Lemma keeps_files_try_except e m : keeps_files m → keeps_files (try_except e m).
Proof.
  intros Hm w. unfold try_except. specialize (Hm w).
  destruct (m w) as [u w1|e' w1]; simpl in *; [done|]. by case_decide.
Qed.

Lemma keeps_files_mkdir name : keeps_files (mkdir name).
Proof.
  unfold mkdir. apply keeps_files_bind; [apply keeps_files_get_world|].
  intros w. destruct (os_path_split _) as [head tail].
  repeat match goal with
         | |- keeps_files (if ?b then _ else _) => destruct b
         end;
    auto using keeps_files_raise, keeps_files_put_dirs.
Qed.

Lemma keeps_files_makedirs_rec fuel : ∀ name, keeps_files (makedirs_rec fuel name).
Proof.
  induction fuel as [|fuel IH]; intros name; [apply keeps_files_mkdir|].
  cbn [makedirs_rec].
  destruct (os_path_split name) as [head tail].
  destruct (if String.eqb tail "" then os_path_split head else (head, tail))
    as [head' tail'].
  apply keeps_files_bind; [by intros w|]. intros ex.
  destruct (_ && _); [|apply keeps_files_mkdir].
  apply keeps_files_bind; [by apply keeps_files_try_except|]. intros _.
  destruct (String.eqb tail' "."); [apply keeps_files_ret|apply keeps_files_mkdir].
Qed.

Lemma keeps_files_makedirs name : keeps_files (makedirs name).
Proof. apply keeps_files_makedirs_rec. Qed.

(** The constructor, in two steps: the save directory is there, possibly
    just made, and the first mask is loaded or created. *)
Lemma __init___split d s w0 t w :
  __init__ d s w0 = Ok t w →
  ∃ w1,
    w_files w1 = w_files w0 ∧
    (w1 = w0 ∨ makedirs (chosen_save_dir d s) w0 = Ok tt w1) ∧
    initialize_mask (mkTool d (listed_pictures w0 d) (chosen_save_dir d s) 0
                            (NdArray 0 0 []) "" false 5 false) w1 = Ok t w.
Proof.
  unfold __init__, glob, isdir. munfold. simpl.
  fold (chosen_save_dir d s). fold (listed_pictures w0 d).
  destruct (bool_decide (is_Some (w_dirs w0 !! chosen_save_dir d s))); simpl.
  - intros H. exists w0. auto.
  - pose proof (keeps_files_makedirs (chosen_save_dir d s) w0) as Hf.
    destruct (makedirs (chosen_save_dir d s) w0) as [[] w1|]; simpl in Hf; [|done].
    intros H. exists w1. auto.
Qed.

Lemma __init___inv img_dir save_dir w0 t w :
  __init__ img_dir save_dir w0 = Ok t w →
  top_inv t ∧ w_files w = w_files w0 ∧ (binary_files w0 → bw_inv t w).
Proof.
  intros H. apply __init___split in H as (w1 & Hfiles & _ & H).
  destruct (initialize_mask_inv _ _ _ _ H) as (_ & f & _ & Hf & _).
  apply py_index_range in Hf. simpl in Hf.
  apply initialize_mask_top in H as (-> & Ht & Hbw); simpl; [|lia..].
  split; [done|]. split; [done|]. intros Hbin. split.
  - apply Hbw. intros p a. rewrite Hfiles. apply Hbin.
  - intros p a. rewrite Hfiles. apply Hbin.
Qed.

Lemma binary_files_saved w p m :
  binary_files w → binary_files (saved w p (collapse m)).
Proof.
  intros Hb q a. unfold saved. simpl.
  destruct (decide (p = q)) as [->|Hne].
  - rewrite lookup_insert_eq. intros [= <-]. apply collapse_binary.
  - rewrite lookup_insert_ne by done. apply Hb.
Qed.

Lemma nav_index_range key t :
  (1 <= length (img_files t))%nat →
  0 <= nav_index key t < Z.of_nat (length (img_files t)).
Proof.
  intros HN. unfold nav_index. destruct (key =? key_a); apply Z.mod_pos_bound; lia.
Qed.

(** The key handler on a navigation key: save, move, load. *)
Lemma on_key_nav key t w :
  key = key_a ∨ key = key_d →
  (1 <= length (img_files t))%nat →
  is_empty (mask t) = false →
  on_key key t w =
  (t' ← initialize_mask (set_index t (nav_index key t)); mret (Continue t'))
    (saved w (mask_path t) (collapse (mask t))).
Proof.
  intros Hk HN He. unfold on_key.
  assert ((key =? key_ESC) || (key =? key_q) = false) as ->
    by (destruct Hk as [-> | ->]; reflexivity).
  assert ((key =? key_a) || (key =? key_d) = true) as ->
    by (destruct Hk as [-> | ->]; reflexivity).
  unfold mbind at 1. unfold M_bind at 1. rewrite save_mask_ok by done.
  unfold nav_index, py_mod.
  assert ((Z.of_nat (length (img_files t)) =? 0) = false) as ->
    by (apply Z.eqb_neq; lia).
  destruct (key =? key_a); reflexivity.
Qed.

Lemma on_key_continue_inv key t w t' w' :
  key_inv t w → on_key key t w = Ok (Continue t') w' →
  top_inv t' ∧ (bw_inv t w → bw_inv t' w').
Proof.
  intros ((Hb & Hwf & Hi & f & Hf & Hp) & Htb & Hs). unfold on_key.
  destruct ((key =? key_ESC) || (key =? key_q)); [by munfold|].
  destruct ((key =? key_a) || (key =? key_d)).
  - unfold mbind at 1. unfold M_bind at 1.
    destruct (save_mask t w) as [u w1|] eqn:Hsave; [|done].
    apply save_mask_inv in Hsave as [He ->].
    unfold mbind at 1. unfold M_bind at 1.
    assert (∃ i, 0 <= i < Z.of_nat (length (img_files t)) ∧
                 (if key =? key_a
                  then py_mod (index t - 1) (Z.of_nat (length (img_files t)))
                  else py_mod (index t + 1) (Z.of_nat (length (img_files t))))
                 = inr i) as (i & Hi' & ->).
    { unfold py_mod.
      assert ((Z.of_nat (length (img_files t)) =? 0) = false) as ->
        by (apply Z.eqb_neq; lia).
      destruct (key =? key_a); eexists; (split; [|reflexivity]);
        apply Z.mod_pos_bound; lia. }
    munfold. simpl.
    destruct (initialize_mask _ _) as [t1 w1|] eqn:Hinit; [|done].
    intros [= <- <-].
    apply initialize_mask_top in Hinit as (-> & Ht & Hbw); simpl; [|done..].
    split; [done|]. intros [_ Hbin].
    pose proof (binary_files_saved w (mask_path t) (mask t) Hbin). split; auto.
  - destruct (key =? key_e).
    + munfold. intros [= <- <-]. split.
      * unfold top_inv. simpl. repeat split; try done; try lia. by exists f.
      * done.
    + destruct (key =? key_r).
      * munfold. simpl.
        destruct (update_window _ _) as [u w1|] eqn:Hu; [|done].
        apply update_window_inv in Hu as [-> _]. intros [= <- <-]. split.
        -- unfold top_inv. simpl. repeat split; try done; try lia.
           ++ by apply amap_wf.
           ++ by exists f.
        -- intros [_ Hbin]. split; [apply fill0_bw|done].
      * munfold. intros [= <- <-]. split; [|done].
        unfold top_inv. repeat split; try done; try lia. by exists f.
Qed.

Lemma at_top_inv w0 t w :
  at_top w0 t w → top_inv t ∧ (binary_files w0 → bw_inv t w).
Proof.
  induction 1 as [d s t w Hinit|t w evs key t1 w1 t2 w2 _ [IHt IHb] Hwait Hkey].
  - apply __init___inv in Hinit as (? & ? & ?). done.
  - apply wait_key_inv in Hwait as (Hk & Hfiles & _ & Hbw); [|done].
    apply on_key_continue_inv in Hkey as [Ht Hb]; [|done].
    split; [done|]. intros Hbin. apply Hb. destruct (IHb Hbin) as [Hm Hf].
    split; [auto|]. intros p a. rewrite Hfiles. apply Hf.
Qed.

Lemma at_key_inv w0 t w :
  at_key w0 t w → key_inv t w ∧ (binary_files w0 → bw_inv t w).
Proof.
  intros (t0 & w' & evs & Htop & Hwait).
  apply at_top_inv in Htop as [Ht Hb].
  apply wait_key_inv in Hwait as (Hk & Hfiles & _ & Hbw); [|done].
  split; [done|]. intros Hbin. destruct (Hb Hbin) as [Hm Hf].
  split; [auto|]. intros p a. rewrite Hfiles. apply Hf.
Qed.

(** ** Events never touch the files *)

Lemma draw_mask_world event x y flags t w :
  world_of (draw_mask event x y flags t w) = w.
Proof.
  unfold draw_mask, cv2_getTrackbarPos. munfold. simpl.
  repeat match goal with
         | |- context [if ?b then _ else _] => destruct b; simpl; try done
         | |- context [match cv2_circle ?a ?b ?c ?d ?e with _ => _ end] =>
             destruct (cv2_circle a b c d e); simpl; try done
         | |- context [match update_window ?a ?b with _ => _ end] =>
             let H := fresh in
             pose proof (update_window_world a b) as H;
             destruct (update_window a b); simpl in *; try done
         end.
Qed.

Lemma on_event_files ev t w : w_files (world_of (on_event ev t w)) = w_files w.
Proof.
  destruct ev as [e x y fl|p]; simpl; [by rewrite draw_mask_world|done].
Qed.

Lemma dispatch_files evs : ∀ t w, w_files (world_of (dispatch evs t w)) = w_files w.
Proof.
  induction evs as [|ev evs IH]; intros t w; simpl; [done|].
  munfold. pose proof (on_event_files ev t w) as He.
  destruct (on_event ev t w) as [t1 w1|]; simpl in *; [|done].
  by rewrite IH.
Qed.

Lemma wait_key_files evs t w : w_files (world_of (wait_key evs t w)) = w_files w.
Proof.
  unfold wait_key, cv2_createTrackbar. munfold. simpl.
  match goal with
  | |- context [update_window ?a ?b] =>
      pose proof (update_window_world a b) as Hu; destruct (update_window a b)
  end; simpl in *; subst; [|done].
  by rewrite dispatch_files.
Qed.

Lemma set_brush_size_same t : set_brush_size t (brush_size t) = t.
Proof. by destruct t. Qed.

Lemma shape_not_empty {A B} (a : ndarray A) (b : ndarray B) :
  shape a = shape b → is_empty a = false → is_empty b = false.
Proof. unfold shape, is_empty. intros [= -> ->]. done. Qed.

Lemma key_inv_not_empty t w : key_inv t w → is_empty (mask t) = false.
Proof.
  intros (_ & _ & f & img & _ & Hi & Hs).
  apply imread_in_wf in Hi as [_ He]. by eapply shape_not_empty.
Qed.

(** ** The command line *)

Lemma lookup_option_save_dir s :
  lookup_option s = Some OptSaveDir → s = "--save_dir"%string.
Proof.
  unfold lookup_option, option_strings. cbn [assoc_option].
  repeat match goal with
         | |- context [String.eqb ?k s] => destruct (String.eqb_spec k s)
         end; intros [=]; congruence.
Qed.

Lemma split_eq_app a p e : split_eq a = Some (p, e) → a = p +:+ String "=" e.
Proof.
  revert p. induction a as [|c a IH]; intros p; simpl; [done|].
  destruct (Ascii.eqb_spec c "=") as [->|_]; [by intros [= <- <-]|].
  destruct (split_eq a) as [[p' e']|]; [|done].
  intros [= <- <-]. simpl. by rewrite (IH p').
Qed.

Lemma prefix_app_l p q r :
  String.prefix p q = true → String.prefix p (q +:+ r) = true.
Proof.
  revert q. induction p as [|c p IH]; intros q.
  - intros _. by destruct (q +:+ r).
  - destruct q as [|c' q]; simpl; [done|].
    destruct (ascii_dec c c'); [apply IH|done].
Qed.

(** A string that begins [--save_dir] and does not begin [--help] begins
    with [--s]. *)
Lemma prefix_save_dir_only p :
  String.prefix p "--save_dir" = true →
  String.prefix p "--help" = false →
  String.prefix "--s" p = true.
Proof.
  destruct p as [|c1 [|c2 [|c3 p]]]; simpl; try done.
  - by destruct (ascii_dec c1 "-").
  - destruct (ascii_dec c1 "-"); [|done]. by destruct (ascii_dec c2 "-").
  - destruct (ascii_dec c1 "-") as [->|]; [|done].
    destruct (ascii_dec c2 "-") as [->|]; [|done].
    destruct (ascii_dec c3 "s") as [->|]; [|done]. simpl.
    by destruct p.
Qed.

Lemma substring_2_not_save_dir a :
  String.eqb "--save_dir" (String.substring 0 2 a) = false.
Proof.
  destruct (String.eqb_spec "--save_dir" (String.substring 0 2 a)) as [H|]; [|done].
  destruct a as [|c1 [|c2 [|c3 a]]]; simpl in H; discriminate.
Qed.

(** Only an argument that begins with [--s] abbreviates [--save_dir] and
    nothing else. *)
Lemma abbreviations_save_dir a e :
  abbreviations a = [(OptSaveDir, e)] → String.prefix "--s" a = true.
Proof.
  unfold abbreviations. destruct (String.prefix "--" a).
  - destruct (split_eq a) as [[p e']|] eqn:Hs.
    + apply split_eq_app in Hs as ->. unfold option_strings. cbn -[String.prefix String.eqb String.substring].
      destruct (String.prefix p "-h"), (String.prefix p "--help") eqn:H2,
        (String.prefix p "--img_dir"), (String.prefix p "--save_dir") eqn:H4;
        cbn -[String.prefix String.eqb String.substring]; try done.
      intros _. apply prefix_app_l. by apply prefix_save_dir_only.
    + unfold option_strings. cbn -[String.prefix String.eqb String.substring].
      destruct (String.prefix a "-h"), (String.prefix a "--help") eqn:H2,
        (String.prefix a "--img_dir"), (String.prefix a "--save_dir") eqn:H4;
        cbn -[String.prefix String.eqb String.substring]; try done.
      intros _. by apply prefix_save_dir_only.
  - unfold option_strings. cbn -[String.prefix String.eqb String.substring]. rewrite substring_2_not_save_dir.
    destruct (String.eqb "-h" _), (String.eqb "--help" _), (String.eqb "--img_dir" _),
      (String.prefix a "-h"), (String.prefix a "--help") eqn:H2,
      (String.prefix a "--img_dir"), (String.prefix a "--save_dir") eqn:H4;
      cbn -[String.prefix String.eqb String.substring]; try done.
    intros _. by apply prefix_save_dir_only.
Qed.

(** Only an argument that begins with [--s] is read as [--save_dir]. *)
Lemma save_dir_argument_prefix a :
  is_save_dir_argument a = true → String.prefix "--s" a = true.
Proof.
  unfold is_save_dir_argument, classify.
  destruct (String.eqb a ""); [done|].
  destruct (negb (starts_with "-" a)); [done|].
  destruct (lookup_option a) as [o|] eqn:Hl.
  { destruct o; try done. by apply lookup_option_save_dir in Hl as ->. }
  destruct (String.length a =? 1)%nat; [done|].
  unfold explicit_option.
  destruct (split_eq a) as [[p e]|] eqn:Hs.
  - destruct (lookup_option p) as [o|] eqn:Hp.
    { destruct o; try done. apply lookup_option_save_dir in Hp as ->.
      by apply split_eq_app in Hs as ->. }
    destruct (abbreviations a) as [|[o e'] [|? ?]] eqn:Ha.
    + by repeat case_match.
    + destruct o; try done. intros _. by eapply abbreviations_save_dir.
    + done.
  - destruct (abbreviations a) as [|[o e'] [|? ?]] eqn:Ha.
    + by repeat case_match.
    + destruct o; try done. intros _. by eapply abbreviations_save_dir.
    + done.
Qed.

(** Without an argument read as [--save_dir] the parser leaves the save
    directory as it found it. *)
Lemma parse_loop_save_dir n : ∀ argv ns ns',
  (length argv <= n)%nat →
  Forall (λ a, is_save_dir_argument a = false) argv →
  parse_loop argv ns = inr ns' → ns_save_dir ns' = ns_save_dir ns.
Proof.
  induction n as [|n IH]; intros argv ns ns' Hlen Hnot.
  - destruct argv; [|simpl in Hlen; lia]. by intros [= <-].
  - destruct argv as [|a rest]; simpl; [by intros [= <-]|].
    apply Forall_cons in Hnot as [Ha Hrest]. simpl in Hlen.
    unfold is_save_dir_argument in Ha.
    destruct (String.eqb a "--"); [done|].
    destruct (classify a) as [|o e|]; [done| |done].
    destruct o; [done| |done].
    destruct e as [v|].
    + intros H. apply IH in H; [done|lia|done].
    + destruct rest as [|v rest]; [done|].
      destruct (String.eqb v "--"); [done|].
      destruct (classify v); try done.
      apply Forall_cons in Hrest as [_ Hrest]. simpl in Hlen.
      intros H. apply IH in H; [done|lia|done].
Qed.

Lemma initialize_mask_save_dir t w t' w' :
  initialize_mask t w = Ok t' w' → save_dir t' = save_dir t ∧ img_dir t' = img_dir t.
Proof.
  intros H. apply initialize_mask_inv in H as (_ & f & m & _ & -> & _). done.
Qed.

Lemma __init___save_dir d s w t w' :
  __init__ d s w = Ok t w' →
  img_dir t = d ∧
  save_dir t = match s with
               | Some s => if String.eqb s "" then d else s
               | None => d
               end.
Proof.
  intros H. apply __init___split in H as (w1 & _ & _ & H).
  apply initialize_mask_save_dir in H as [-> ->]. done.
Qed.

Lemma demo_startup : startup [] demo_world = Ok (Some demo_tool) demo_world_top.
Proof. vm_compute. reflexivity. Qed.

Lemma demo_at_top : at_top demo_world demo_tool demo_world_top.
Proof.
  apply (top_start demo_world "images" (Some "outputs"%string)).
  vm_compute. reflexivity.
Qed.

Lemma demo_at_key : at_key demo_world demo_tool demo_world_key.
Proof.
  exists demo_tool, demo_world_top, []. split; [apply demo_at_top|].
  vm_compute. reflexivity.
Qed.

Lemma demo_binary_files : binary_files demo_world.
Proof.
  intros p a. unfold demo_world. simpl.
  destruct (decide (p = "images/a.png"%string)) as [->|Hne1].
  { rewrite lookup_insert_eq. done. }
  rewrite lookup_insert_ne by done.
  destruct (decide (p = "outputs/a.npy"%string)) as [->|Hne2].
  { rewrite lookup_insert_eq. intros [= <-]. simpl.
    repeat apply Forall_cons_2; try apply Forall_nil_2; unfold binary; lia. }
  rewrite lookup_insert_ne by done. by rewrite lookup_empty.
Qed.

(** ** The claims *)



(** C2. Whenever the session waits for a key, the file [save_mask] writes is
    a 2-D array of the values 0 and 1 with the height and width of the
    current picture, at the path of that picture's mask. *)
Theorem saved_file_is_binary_image_sized w0 t w :
  at_key w0 t w →
  ∃ f img b w',
    current_image t = inr f ∧
    imread_in (w_files w) f = Some img ∧
    mask_path t = mask_path_of (save_dir t) f ∧
    save_mask t w = Ok tt w' ∧
    w_files w' !! mask_path t = Some (NpyFile b) ∧
    shape b = shape img ∧
    well_formed b ∧
    Forall binary (arr_data b).
Proof.
  intros Hk. apply at_key_inv in Hk as [Hk _].
  pose proof (key_inv_not_empty t w Hk) as He.
  destruct Hk as ((_ & Hwf & _ & f & Hf & Hp) & _ & f' & img & Hf' & Hi & Hs).
  assert (f' = f) as -> by congruence.
  exists f, img, (collapse (mask t)), (saved w (mask_path t) (collapse (mask t))).
  split; [done|]. split; [done|]. split; [done|].
  split; [by apply save_mask_ok|].
  split; [unfold saved; simpl; by rewrite lookup_insert_eq|].
  split; [by rewrite collapse_shape|].
  split; [unfold collapse; by do 2 apply amap_wf|apply collapse_binary].
Qed.

Lemma saved_file_is_binary_image_sized_witness :
  at_key demo_world demo_tool demo_world_key ∧
  ∃ f img b w',
    current_image demo_tool = inr f ∧
    imread_in (w_files demo_world_key) f = Some img ∧
    mask_path demo_tool = mask_path_of (save_dir demo_tool) f ∧
    save_mask demo_tool demo_world_key = Ok tt w' ∧
    w_files w' !! mask_path demo_tool = Some (NpyFile b) ∧
    shape b = shape img ∧
    well_formed b ∧
    Forall binary (arr_data b).
Proof.
  split; [exact demo_at_key|].
  exact (saved_file_is_binary_image_sized demo_world demo_tool demo_world_key
           demo_at_key).
Defined.

(** C3. With at least one image, the keys [a] and [d] first save the mask
    of the image being left, then set the index to (i-1) mod N or (i+1) mod N,
    then run [initialize_mask] for the new index; whatever the outcome of
    the load, the save has been done.  The new index holds a picture [f],
    and when the handler returns, the session is on it: the index is the new
    one, the mask path is the mask file of [f], the mask is the stored mask
    of [f] (as the world holds it after the save), expanded, or all zero with
    the size of [f] when there is none, and every other field is as it was.
    The handler does return when that mask file holds a stored array, and
    when nothing is at its path and [f] can be read. *)
Theorem navigate_saves_then_moves key t w :
  key = key_a ∨ key = key_d →
  (1 <= length (img_files t))%nat →
  is_empty (mask t) = false →
  let N := Z.of_nat (length (img_files t)) in
  let i' := if key =? key_a then (index t - 1) `mod` N else (index t + 1) `mod` N in
  let w1 := saved w (mask_path t) (collapse (mask t)) in
  save_mask t w = Ok tt w1 ∧
  0 <= i' < N ∧
  on_key key t w =
    (t' ← initialize_mask (set_index t i'); mret (Continue t')) w1 ∧
  world_of (on_key key t w) = w1 ∧
  w_files (world_of (on_key key t w)) !! mask_path t
    = Some (NpyFile (collapse (mask t))) ∧
  ∃ f,
    img_files t !! Z.to_nat i' = Some f ∧
    let p := mask_path_of (save_dir t) f in
    (∀ c w', on_key key t w = Ok c w' →
       ∃ t', c = Continue t' ∧ w' = w1 ∧
             index t' = i' ∧
             mask_path t' = p ∧
             ((∃ b, w_files w1 !! p = Some (NpyFile b) ∧ well_formed b ∧
                    mask t' = stack3_times_255 b)
              ∨ (w_files w1 !! p = None ∧
                 ∃ img, imread_in (w_files w1) f = Some img ∧
                        mask t' = np_zeros (shape img))) ∧
             t' = mkTool (img_dir t) (img_files t) (save_dir t) i' (mask t') p
                         (drawing t) (brush_size t) (eraser_mode t)) ∧
    (∀ b, w_files w1 !! p = Some (NpyFile b) → well_formed b →
       on_key key t w =
       Ok (Continue (mkTool (img_dir t) (img_files t) (save_dir t) i'
                            (stack3_times_255 b) p
                            (drawing t) (brush_size t) (eraser_mode t))) w1) ∧
    (∀ img, w_files w1 !! p = None → w_dirs w !! p = None →
       imread_in (w_files w1) f = Some img →
       on_key key t w =
       Ok (Continue (mkTool (img_dir t) (img_files t) (save_dir t) i'
                            (np_zeros (shape img)) p
                            (drawing t) (brush_size t) (eraser_mode t))) w1).
Proof.
  intros Hk HN He N i' w1.
  pose proof (on_key_nav key t w Hk HN He) as Hnav.
  fold w1 in Hnav. change (nav_index key t) with i' in Hnav.
  assert (world_of (on_key key t w) = w1) as Hw.
  { rewrite Hnav. munfold.
    pose proof (initialize_mask_world (set_index t i') w1) as Hi.
    destruct (initialize_mask (set_index t i') w1); simpl in *; done. }
  pose proof (nav_index_range key t HN) as Hi'. change (nav_index key t) with i' in Hi'.
  fold N in Hi'.
  split; [by apply save_mask_ok|].
  split; [done|].
  split; [done|]. split; [done|].
  split; [rewrite Hw; unfold w1, saved; simpl; by rewrite lookup_insert_eq|].
  destruct (py_index_ok (img_files t) i' Hi') as (f & Hf & Hl).
  assert (w_dirs w1 = w_dirs w) as Hdirs by done.
  clearbody w1 i'.
  exists f. split; [done|]. intros p. split; [|split].
  - intros c w'. rewrite Hnav. munfold.
    destruct (initialize_mask (set_index t i') w1) as [t1 w2|] eqn:Hinit; [|done].
    intros [= <- <-]. exists t1.
    apply initialize_mask_inv in Hinit as (-> & f' & m & Hf' & -> & Hm).
    unfold current_image in Hf'. simpl in Hf'.
    assert (f' = f) as -> by congruence. simpl. fold p. fold p in Hm.
    split; [done|]. split; [done|]. split; [done|]. split; [done|].
    split; [|done].
    destruct Hm as [(b & ? & ? & ->)|(? & img & ? & ->)]; [left|right]; eauto.
  - intros b Hb Hwf. rewrite Hnav.
    unfold initialize_mask, path_exists, np_load. munfold. simpl.
    rewrite Hf. simpl. fold p. rewrite Hb.
    rewrite bool_decide_true by eauto. simpl.
    rewrite Hb, bool_decide_true by done. done.
  - intros img Hn Hd Hi. rewrite Hnav.
    unfold initialize_mask, path_exists, cv2_imread. munfold. simpl.
    rewrite Hf. simpl. fold p. rewrite Hdirs, Hn, Hd.
    rewrite !bool_decide_false by (by intros [? ?]). simpl.
    by rewrite Hi.
Qed.

Lemma navigate_saves_then_moves_witness :
  let t := demo_tool in
  let w := demo_world_key in
  let key := key_a in
  let N := Z.of_nat (length (img_files t)) in
  let i' := if key =? key_a then (index t - 1) `mod` N else (index t + 1) `mod` N in
  let w1 := saved w (mask_path t) (collapse (mask t)) in
  save_mask t w = Ok tt w1 ∧
  0 <= i' < N ∧
  on_key key t w =
    (t' ← initialize_mask (set_index t i'); mret (Continue t')) w1 ∧
  world_of (on_key key t w) = w1 ∧
  w_files (world_of (on_key key t w)) !! mask_path t
    = Some (NpyFile (collapse (mask t))) ∧
  ∃ f,
    img_files t !! Z.to_nat i' = Some f ∧
    let p := mask_path_of (save_dir t) f in
    (∀ c w', on_key key t w = Ok c w' →
       ∃ t', c = Continue t' ∧ w' = w1 ∧
             index t' = i' ∧
             mask_path t' = p ∧
             ((∃ b, w_files w1 !! p = Some (NpyFile b) ∧ well_formed b ∧
                    mask t' = stack3_times_255 b)
              ∨ (w_files w1 !! p = None ∧
                 ∃ img, imread_in (w_files w1) f = Some img ∧
                        mask t' = np_zeros (shape img))) ∧
             t' = mkTool (img_dir t) (img_files t) (save_dir t) i' (mask t') p
                         (drawing t) (brush_size t) (eraser_mode t)) ∧
    (∀ b, w_files w1 !! p = Some (NpyFile b) → well_formed b →
       on_key key t w =
       Ok (Continue (mkTool (img_dir t) (img_files t) (save_dir t) i'
                            (stack3_times_255 b) p
                            (drawing t) (brush_size t) (eraser_mode t))) w1) ∧
    (∀ img, w_files w1 !! p = None → w_dirs w !! p = None →
       imread_in (w_files w1) f = Some img →
       on_key key t w =
       Ok (Continue (mkTool (img_dir t) (img_files t) (save_dir t) i'
                            (np_zeros (shape img)) p
                            (drawing t) (brush_size t) (eraser_mode t))) w1).
Proof.
  apply (navigate_saves_then_moves key_a demo_tool demo_world_key).
  - by left.
  - simpl. lia.
  - reflexivity.
Defined.

(** C4. On [q] and on escape the key handler leaves the loop with the
    world as it was, and a round of [main] that ends with one of these keys
    leaves every file as it was: nothing is saved on quitting. *)
Theorem quit_does_not_save t w evs rest :
  on_key key_ESC t w = Ok (Break t) w ∧
  on_key key_q t w = Ok (Break t) w ∧
  w_files (world_of (main ((evs, key_ESC) :: rest) t w)) = w_files w ∧
  w_files (world_of (main ((evs, key_q) :: rest) t w)) = w_files w.
Proof.
  split; [done|]. split; [done|].
  pose proof (wait_key_files evs t w) as Hw.
  simpl. munfold.
  destruct (wait_key evs t w) as [t1 w1|]; simpl in *; done.
Qed.

(** C5. For a radius [r >= 0], a centre [(x, y)] anywhere and any pixel
    buffer, the stamp succeeds and sets to the colour exactly the pixels of
    the buffer at Euclidean distance at most [r] from the centre; all other
    pixels, and the size of the buffer, stay as they were. *)
Theorem stamp_is_exact_disc img x y r color :
  well_formed img → 0 <= r →
  ∃ img',
    cv2_circle img x y r color = inr img' ∧
    shape img' = shape img ∧
    well_formed img' ∧
    ∀ i j, in_bounds img i j →
      get_px img' i j =
      if (j - x) * (j - x) + (i - y) * (i - y) <=? r * r
      then Some color
      else get_px img i j.
Proof.
  intros Hw Hr.
  destruct (Circle_spec img x y r color Hw Hr) as (img' & HC & Hr' & Hc' & Hw' & Hp).
  exists img'. unfold cv2_circle.
  destruct (Z.ltb_spec r 0); [lia|]. rewrite HC.
  split; [done|]. split; [unfold shape; congruence|]. split; [done|].
  intros i j Hb. apply (Hp i j Hb).
Qed.

Lemma stamp_is_exact_disc_witness :
  ∃ img',
    cv2_circle (np_zeros (3%nat, 3%nat)) 0 0 1 white = inr img' ∧
    shape img' = shape (np_zeros (3%nat, 3%nat)) ∧
    well_formed img' ∧
    ∀ i j, in_bounds (np_zeros (3%nat, 3%nat)) i j →
      get_px img' i j =
      if (j - 0) * (j - 0) + (i - 0) * (i - 0) <=? 1 * 1
      then Some white
      else get_px (np_zeros (3%nat, 3%nat)) i j.
Proof.
  apply (stamp_is_exact_disc (np_zeros (3%nat, 3%nat)) 0 0 1 white).
  - reflexivity.
  - lia.
Defined.

(** C6. Whenever the session waits for a key, [r] zeroes the mask and a
    save that follows writes an all-zero array with the height and width of
    the current picture. *)
Theorem reset_then_save_is_zero w0 t w :
  at_key w0 t w →
  ∃ f img t1 b w',
    current_image t = inr f ∧
    imread_in (w_files w) f = Some img ∧
    on_key key_r t w = Ok (Continue t1) w ∧
    mask t1 = fill0 (mask t) ∧
    mask_path t1 = mask_path_of (save_dir t1) f ∧
    save_mask t1 w = Ok tt w' ∧
    w_files w' !! mask_path t1 = Some (NpyFile b) ∧
    Forall (λ v, v = 0) (arr_data b) ∧
    shape b = shape img.
Proof.
  intros Hk. apply at_key_inv in Hk as [Hk _].
  pose proof (key_inv_not_empty t w Hk) as He.
  destruct Hk as ((_ & Hwf & _ & f & Hf & Hp) & _ & Hs).
  pose proof Hs as (f' & img & Hf' & Hi & Hsh).
  assert (f' = f) as -> by congruence.
  set (t1 := set_mask t (fill0 (mask t))).
  exists f, img, t1, (collapse (fill0 (mask t))),
    (saved w (mask_path t) (collapse (fill0 (mask t)))).
  split; [done|]. split; [done|].
  split.
  { unfold on_key. simpl. fold t1. unfold mbind, M_bind.
    rewrite (update_window_ok t1 w); [done|].
    by eapply shown_ok_same. }
  split; [done|]. split; [done|].
  split; [by apply (save_mask_ok t1 w)|].
  split; [unfold saved; simpl; by rewrite lookup_insert_eq|].
  split; [apply collapse_fill0|done].
Qed.

Lemma reset_then_save_is_zero_witness :
  at_key demo_world demo_tool demo_world_key ∧
  ∃ f img t1 b w',
    current_image demo_tool = inr f ∧
    imread_in (w_files demo_world_key) f = Some img ∧
    on_key key_r demo_tool demo_world_key = Ok (Continue t1) demo_world_key ∧
    mask t1 = fill0 (mask demo_tool) ∧
    mask_path t1 = mask_path_of (save_dir t1) f ∧
    save_mask t1 demo_world_key = Ok tt w' ∧
    w_files w' !! mask_path t1 = Some (NpyFile b) ∧
    Forall (λ v, v = 0) (arr_data b) ∧
    shape b = shape img.
Proof.
  split; [exact demo_at_key|].
  exact (reset_then_save_is_zero demo_world demo_tool demo_world_key demo_at_key).
Defined.

(** C7, as the code has it: [set_brush_size] stores its argument as given,
    so for an argument in [0,50] the stored brush size is that argument and
    lies in [0,50]. *)
Theorem set_brush_size_stores t size :
  0 <= size <= 50 →
  brush_size (set_brush_size t size) = size ∧
  0 <= brush_size (set_brush_size t size) <= 50.
Proof. intros Hs. simpl. lia. Qed.

Lemma set_brush_size_stores_witness :
  brush_size (set_brush_size demo_tool 17) = 17 ∧
  0 <= brush_size (set_brush_size demo_tool 17) <= 50.
Proof. apply (set_brush_size_stores demo_tool 17). lia. Defined.

(** C7, as stated, fails: an argument outside [0,50] is stored unchanged. *)
Lemma set_brush_size_does_not_clamp :
  ¬ (∀ (t : AnnotationTool) (size : Z),
       0 <= brush_size (set_brush_size t size) <= 50).
Proof. intros H. specialize (H demo_tool 100). simpl in H. lia. Qed.

(** The bound on the brush size comes from the trackbar: in every state in
    which the session waits for a key it lies in [0,50]. *)
Lemma brush_size_at_key w0 t w : at_key w0 t w → 0 <= brush_size t <= 50.
Proof. intros Hk. apply at_key_inv in Hk as [((Hb & _) & _) _]. done. Qed.

(** C8, as the code has it: started without an argument that argparse reads
    as [--save_dir] (the option written in full or abbreviated, with its value
    as the next argument or after [=]), the session saves to the parser's
    default, [outputs]. *)
Theorem cli_default_save_dir_is_outputs argv w t w' :
  Forall (λ a, is_save_dir_argument a = false) argv →
  startup argv w = Ok (Some t) w' →
  save_dir t = "outputs"%string.
Proof.
  intros Hnot. unfold startup, parse_args, isdir. munfold.
  destruct (parse_loop argv _) as [|ns] eqn:Hparse; simpl; [done|].
  apply (parse_loop_save_dir (length argv)) in Hparse; [|done|done].
  simpl in Hparse.
  destruct (bool_decide _); simpl; [|done].
  destruct (__init__ _ _ w) as [t0 w0|] eqn:Hinit; [|done].
  intros [= <- <-]. apply __init___save_dir in Hinit as [_ ->].
  rewrite Hparse. reflexivity.
Qed.

Lemma cli_default_save_dir_is_outputs_witness :
  save_dir demo_tool = "outputs"%string.
Proof.
  apply (cli_default_save_dir_is_outputs ["--img_dir=images"] demo_world demo_tool
           demo_world_top).
  - repeat constructor.
  - vm_compute. reflexivity.
Defined.

(** C8, as stated, fails: without [--save_dir] the save directory is not the
    image directory. *)
Lemma cli_default_save_dir_is_not_img_dir :
  startup [] demo_world = Ok (Some demo_tool) demo_world_top ∧
  save_dir demo_tool ≠ img_dir demo_tool.
Proof. split; [vm_compute; reflexivity|]. simpl. discriminate. Qed.

(** In particular, a command line none of whose arguments begins with [--s]
    leaves the save directory at [outputs]. *)
Lemma cli_without_dash_dash_s argv w t w' :
  Forall (λ a, String.prefix "--s" a = false) argv →
  startup argv w = Ok (Some t) w' →
  save_dir t = "outputs"%string.
Proof.
  intros Hnot. unfold startup, parse_args, isdir. munfold.
  destruct (parse_loop argv _) as [|ns] eqn:Hparse; simpl; [done|].
  apply (parse_loop_save_dir (length argv)) in Hparse; [|done|].
  - simpl in Hparse.
    destruct (bool_decide _); simpl; [|done].
    destruct (__init__ _ _ w) as [t0 w0|] eqn:Hinit; [|done].
    intros [= <- <-]. apply __init___save_dir in Hinit as [_ ->].
    rewrite Hparse. reflexivity.
  - eapply Forall_impl; [exact Hnot|]. intros a Ha. simpl in Ha.
    destruct (is_save_dir_argument a) eqn:Hs; [|done].
    apply save_dir_argument_prefix in Hs. congruence.
Qed.

(** The spellings of the option that argparse accepts do set the save
    directory, also where the argument [--save_dir] itself is absent. *)
Lemma cli_save_dir_spellings :
  parse_args ["--save_dir"; "masks"] = inr (mkNamespace "images" "masks") ∧
  parse_args ["--save_dir=masks"] = inr (mkNamespace "images" "masks") ∧
  parse_args ["--s"; "masks"] = inr (mkNamespace "images" "masks") ∧
  parse_args ["--sa=masks"] = inr (mkNamespace "images" "masks") ∧
  parse_args ["--img_dir"; "--save_dir"] = inl SystemExit ∧
  parse_args ["-h"] = inl SystemExit ∧
  parse_args ["masks"] = inl SystemExit.
Proof. vm_compute. repeat split. Qed.

(** The constructor alone does fall back to the image directory. *)
Lemma __init___default_save_dir d w t w' :
  __init__ d None w = Ok t w' → save_dir t = d.
Proof. intros H. by apply __init___save_dir in H as [_ ->]. Qed.

(** C9. While the session waits for a key: a button-up event only clears
    [drawing]; a move with [drawing] off changes nothing at all; and an
    event that changes the mask is a button-down, or a move with [drawing]
    on. *)
Theorem pointer_events_frame w0 t w x y flags :
  at_key w0 t w →
  draw_mask EVENT_LBUTTONUP x y flags t w = Ok (set_drawing t false) w ∧
  (drawing t = false → draw_mask EVENT_MOUSEMOVE x y flags t w = Ok t w) ∧
  (∀ event t' w',
     draw_mask event x y flags t w = Ok t' w' →
     mask t' ≠ mask t →
     event = EVENT_LBUTTONDOWN ∨ (event = EVENT_MOUSEMOVE ∧ drawing t = true)).
Proof.
  intros Hk. apply at_key_inv in Hk as [(_ & Htb & _) _].
  split; [|split].
  - unfold draw_mask, cv2_getTrackbarPos. munfold. simpl.
    by rewrite Htb, set_brush_size_same.
  - intros Hd. unfold draw_mask, cv2_getTrackbarPos. munfold. simpl.
    rewrite Hd. by rewrite Htb, set_brush_size_same.
  - intros event t' w' H Hne.
    apply draw_mask_inv in H as (_ & _ & _ & _ & [[Hm _]|(_ & _ & _ & Hev)]);
      [done|exact Hev].
Qed.

Lemma pointer_events_frame_witness :
  at_key demo_world demo_tool demo_world_key ∧
  draw_mask EVENT_LBUTTONUP 1 1 0 demo_tool demo_world_key
    = Ok (set_drawing demo_tool false) demo_world_key ∧
  (drawing demo_tool = false →
   draw_mask EVENT_MOUSEMOVE 1 1 0 demo_tool demo_world_key
     = Ok demo_tool demo_world_key) ∧
  (∀ event t' w',
     draw_mask event 1 1 0 demo_tool demo_world_key = Ok t' w' →
     mask t' ≠ mask demo_tool →
     event = EVENT_LBUTTONDOWN
     ∨ (event = EVENT_MOUSEMOVE ∧ drawing demo_tool = true)).
Proof.
  split; [exact demo_at_key|].
  exact (pointer_events_frame demo_world demo_tool demo_world_key 1 1 0 demo_at_key).
Defined.

Lemma collapse_one_channel m :
  Forall bw (arr_data m) →
  collapse m = amap (λ p, threshold p.1.1) m ∧
  collapse m = amap (λ p, threshold p.1.2) m ∧
  collapse m = amap (λ p, threshold p.2) m.
Proof.
  destruct m as [h w d]. unfold collapse, amap. simpl. intros Hd.
  repeat split; f_equal; rewrite map_map; apply map_ext_Forall;
    (eapply Forall_impl; [exact Hd|]); by intros p [-> | ->].
Qed.

(** C10. If the stored masks hold only 0 and 1 when the session is
    constructed, then at the top of every round and whenever the session
    waits for a key every pixel of the mask is (0,0,0) or (255,255,255), the
    stored masks still hold only 0 and 1, and the collapse done by
    [save_mask] is the test of any one channel for being non-zero. *)
Theorem mask_channels_stay_equal w0 t w :
  binary_files w0 →
  at_top w0 t w ∨ at_key w0 t w →
  Forall bw (arr_data (mask t)) ∧
  binary_files w ∧
  collapse (mask t) = amap (λ p, threshold p.1.1) (mask t) ∧
  collapse (mask t) = amap (λ p, threshold p.1.2) (mask t) ∧
  collapse (mask t) = amap (λ p, threshold p.2) (mask t).
Proof.
  intros Hbin Hr.
  assert (bw_inv t w) as [Hm Hf].
  { destruct Hr as [Ht|Hk].
    - apply at_top_inv in Ht as [_ H]. auto.
    - apply at_key_inv in Hk as [_ H]. auto. }
  split; [done|]. split; [done|]. by apply collapse_one_channel.
Qed.

Lemma mask_channels_stay_equal_witness :
  Forall bw (arr_data (mask demo_tool)) ∧
  binary_files demo_world_key ∧
  collapse (mask demo_tool) = amap (λ p, threshold p.1.1) (mask demo_tool) ∧
  collapse (mask demo_tool) = amap (λ p, threshold p.1.2) (mask demo_tool) ∧
  collapse (mask demo_tool) = amap (λ p, threshold p.2) (mask demo_tool).
Proof.
  apply (mask_channels_stay_equal demo_world demo_tool demo_world_key).
  - exact demo_binary_files.
  - right. exact demo_at_key.
Defined.

(** The scenario of two pictures, run. *)
Example scenario_end_to_end :
  ∃ t w,
    scenario_run = Ok t w ∧
    index t = 0 ∧
    img_files t = ["images/a.png"; "images/b.jpg"]%string ∧
    get_px (mask t) 5 5 = Some white ∧
    get_px (mask t) 5 7 = Some white ∧
    get_px (mask t) 6 6 = Some white ∧
    get_px (mask t) 6 7 = Some black ∧
    get_px (mask t) 5 8 = Some black ∧
    w_files w !! "outputs/b.npy"%string
      = Some (NpyFile (NdArray 10 10 (replicate 100 0))).
Proof.
  eexists _, _. split; [vm_compute; reflexivity|].
  repeat split; vm_compute; reflexivity.
Qed.

(** * Further properties *)

(** ** Stamps, composed *)

(** Two arrays of one size with the same pixels are the same array. *)
Lemma ndarray_ext (a b : ndarray pixel) :
  well_formed a → well_formed b →
  arr_rows b = arr_rows a → arr_cols b = arr_cols a →
  (∀ i j, in_bounds a i j → get_px b i j = get_px a i j) →
  b = a.
Proof.
  destruct a as [h w da], b as [h' w' db]. unfold well_formed, in_bounds, get_px.
  simpl. intros Ha Hb -> -> Hpx. f_equal. apply list_eq. intros k.
  destruct (decide (k < h * w)%nat) as [Hk|Hk].
  - assert (0 < Z.of_nat w) as Hw by nia.
    specialize (Hpx (Z.of_nat k / Z.of_nat w) (Z.of_nat k `mod` Z.of_nat w)).
    assert (Z.of_nat k / Z.of_nat w * Z.of_nat w + Z.of_nat k `mod` Z.of_nat w
            = Z.of_nat k) as Hdm
      by (pose proof (Z.div_mod (Z.of_nat k) (Z.of_nat w)); lia).
    rewrite Hdm, Nat2Z.id in Hpx. apply Hpx.
    pose proof (Z.mod_pos_bound (Z.of_nat k) (Z.of_nat w) Hw).
    split; [|done]. split; [apply Z.div_pos; lia|].
    apply Z.div_lt_upper_bound; nia.
  - rewrite !lookup_ge_None_2 by lia. done.
Qed.

Lemma painted_unique c P img a b :
  well_formed img → painted c P img a → painted c P img b → b = a.
Proof.
  intros Hw (Hra & Hca & Hwa & Hpa) (Hrb & Hcb & Hwb & Hpb).
  apply ndarray_ext; try congruence.
  intros i j Hb. unfold in_bounds in Hb. rewrite Hra, Hca in Hb.
  by rewrite Hpa, Hpb.
Qed.

Lemma cv2_circle_painted img x y r color :
  well_formed img → 0 <= r →
  ∃ img', cv2_circle img x y r color = inr img' ∧
          painted color (disc x y r) img img'.
Proof.
  intros Hw Hr. destruct (Circle_spec img x y r color Hw Hr) as (img' & HC & HP).
  exists img'. unfold cv2_circle. destruct (Z.ltb_spec r 0); [lia|].
  by rewrite HC.
Qed.

(** X1. A stamp over the disc of an earlier stamp replaces it: stamping
    colour [c1] and then colour [c2] with the same centre and radius gives
    what stamping [c2] alone gives.  Stamping twice is stamping once, and
    erasing what was just painted is erasing. *)
Theorem stamp_last_wins img x y r c1 c2 :
  well_formed img → 0 <= r →
  ∃ a b,
    cv2_circle img x y r c1 = inr a ∧
    cv2_circle a x y r c2 = inr b ∧
    cv2_circle img x y r c2 = inr b.
Proof.
  intros Hw Hr.
  destruct (cv2_circle_painted img x y r c1 Hw Hr) as (a & Ha & Pa).
  destruct (cv2_circle_painted a x y r c2 (painted_wf _ _ _ _ Pa) Hr)
    as (b & Hb & Pb).
  destruct (cv2_circle_painted img x y r c2 Hw Hr) as (b' & Hb' & Pb').
  exists a, b. split; [done|]. split; [done|].
  rewrite Hb'. f_equal. symmetry.
  apply (painted_unique c2 (disc x y r) img); try done.
  destruct Pa as (Hra & Hca & Hwa & Hpa), Pb as (Hrb & Hcb & Hwb & Hpb).
  split; [congruence|]. split; [congruence|]. split; [done|].
  intros i j Hij. rewrite Hpb by (unfold in_bounds in *; rewrite Hra, Hca; done).
  rewrite Hpa by done. by destruct (disc x y r i j).
Qed.

Lemma stamp_last_wins_witness :
  ∃ a b,
    cv2_circle (np_zeros (3%nat, 3%nat)) 1 1 1 white = inr a ∧
    cv2_circle a 1 1 1 black = inr b ∧
    cv2_circle (np_zeros (3%nat, 3%nat)) 1 1 1 black = inr b.
Proof.
  apply (stamp_last_wins (np_zeros (3%nat, 3%nat)) 1 1 1 white black).
  - reflexivity.
  - lia.
Defined.

(** X2. Stamps of one colour commute: two discs stamped in either order
    give the same mask, the union of the discs in that colour. *)
Theorem stamps_commute img x1 y1 r1 x2 y2 r2 c :
  well_formed img → 0 <= r1 → 0 <= r2 →
  ∃ a b d,
    cv2_circle img x1 y1 r1 c = inr a ∧
    cv2_circle a x2 y2 r2 c = inr d ∧
    cv2_circle img x2 y2 r2 c = inr b ∧
    cv2_circle b x1 y1 r1 c = inr d ∧
    painted c (λ i j, disc x1 y1 r1 i j || disc x2 y2 r2 i j) img d.
Proof.
  intros Hw Hr1 Hr2.
  destruct (cv2_circle_painted img x1 y1 r1 c Hw Hr1) as (a & Ha & Pa).
  destruct (cv2_circle_painted a x2 y2 r2 c (painted_wf _ _ _ _ Pa) Hr2)
    as (d & Hd & Pd).
  destruct (cv2_circle_painted img x2 y2 r2 c Hw Hr2) as (b & Hb & Pb).
  destruct (cv2_circle_painted b x1 y1 r1 c (painted_wf _ _ _ _ Pb) Hr1)
    as (d' & Hd' & Pd').
  pose proof (painted_trans _ _ _ _ _ _ Pa Pd) as P1.
  pose proof (painted_trans _ _ _ _ _ _ Pb Pd') as P2.
  assert (d' = d) as ->.
  { apply (painted_unique c (λ i j, disc x1 y1 r1 i j || disc x2 y2 r2 i j) img);
      try done.
    eapply painted_ext; [exact P2|]. intros i j _. apply orb_comm. }
  by exists a, b, d.
Qed.

Lemma stamps_commute_witness :
  ∃ a b d,
    cv2_circle (np_zeros (3%nat, 4%nat)) 0 0 1 white = inr a ∧
    cv2_circle a 3 2 2 white = inr d ∧
    cv2_circle (np_zeros (3%nat, 4%nat)) 3 2 2 white = inr b ∧
    cv2_circle b 0 0 1 white = inr d ∧
    painted white (λ i j, disc 0 0 1 i j || disc 3 2 2 i j)
      (np_zeros (3%nat, 4%nat)) d.
Proof.
  apply (stamps_commute (np_zeros (3%nat, 4%nat)) 0 0 1 3 2 2 white).
  - reflexivity.
  - lia.
  - lia.
Defined.

(** ** The callbacks, in a waiting session *)

Lemma dispatch_app evs1 : ∀ evs2 t w,
  dispatch (evs1 ++ evs2) t w = (t' ← dispatch evs1 t; dispatch evs2 t') w.
Proof.
  induction evs1 as [|ev evs1 IH]; intros evs2 t w; simpl; [done|].
  munfold. destruct (on_event ev t w) as [t1 w1|]; [|done]. apply IH.
Qed.

Lemma at_key_event w0 t w ev t' w' :
  at_key w0 t w → on_event ev t w = Ok t' w' → at_key w0 t' w'.
Proof.
  intros (t0 & w1 & evs & Htop & Hwait) Hev.
  exists t0, w1, (evs ++ [ev]). split; [done|].
  revert Hwait. unfold wait_key. munfold.
  destruct (cv2_createTrackbar _ _ w1) as [u w2|]; [|done].
  destruct (update_window t0 w2) as [u' w3|]; [|done].
  intros Hd. rewrite dispatch_app. munfold. rewrite Hd. simpl.
  munfold. by rewrite Hev.
Qed.

Lemma stamp_in_session t w x y :
  key_inv t w →
  let color := if eraser_mode t then black else white in
  ∃ m,
    cv2_circle (mask t) x y (w_trackbar w) color = inr m ∧
    painted color (disc x y (brush_size t)) (mask t) m ∧
    ∀ t', img_files t' = img_files t → index t' = index t → mask t' = m →
          update_window t' w = Ok tt w.
Proof.
  intros ((Hb & Hwf & _) & Htb & Hs) color.
  destruct (cv2_circle_painted (mask t) x y (w_trackbar w) color Hwf)
    as (m & Hm & Pm); [lia|].
  exists m. split; [done|]. split; [by rewrite <- Htb|].
  intros t' Hf Hi Hmask.
  apply update_window_ok. eapply shown_ok_same; [..|exact Hs]; try done.
  rewrite Hmask. destruct Pm as (Hr & Hc & _). unfold shape. congruence.
Qed.

(** X3. In a session that waits for a key, a button-down event, or a move
    with the button held, never fails: it stamps the disc of the current
    brush size in the mode's colour onto the mask, exactly, leaves the world
    as it is and leaves [drawing] on. *)
Theorem stamp_event_paints_disc w0 t w event x y flags :
  at_key w0 t w →
  event = EVENT_LBUTTONDOWN ∨ (event = EVENT_MOUSEMOVE ∧ drawing t = true) →
  ∃ t',
    draw_mask event x y flags t w = Ok t' w ∧
    at_key w0 t' w ∧
    drawing t' = true ∧
    shape (mask t') = shape (mask t) ∧
    ∀ i j, in_bounds (mask t) i j →
      get_px (mask t') i j =
      if (j - x) * (j - x) + (i - y) * (i - y) <=? brush_size t * brush_size t
      then Some (if eraser_mode t then black else white)
      else get_px (mask t) i j.
Proof.
  intros Hk Hev. pose proof (at_key_inv _ _ _ Hk) as [Hinv _].
  assert (∃ t', draw_mask event x y flags t w = Ok t' w ∧ drawing t' = true ∧
                painted (if eraser_mode t then black else white)
                  (disc x y (brush_size t)) (mask t) (mask t'))
    as (t' & Hd & Hdr & (Hr & Hc & _ & Hp)).
  { unfold draw_mask, cv2_getTrackbarPos. munfold. simpl.
    destruct (stamp_in_session t w x y Hinv) as (m & -> & Pm & Hu).
    destruct Hev as [-> | [-> Hdr]]; simpl.
    - rewrite Hu by done. eexists. split; [done|]. by split.
    - rewrite Hdr. simpl. rewrite Hu by done.
      eexists. split; [done|]. by split. }
  exists t'. split; [done|].
  split; [by apply (at_key_event w0 t w (MouseEvent event x y flags))|].
  split; [done|]. split; [unfold shape; congruence|]. exact Hp.
Qed.

Lemma stamp_event_paints_disc_witness :
  ∃ t',
    draw_mask EVENT_LBUTTONDOWN 1 0 0 demo_tool demo_world_key
      = Ok t' demo_world_key ∧
    at_key demo_world t' demo_world_key ∧
    drawing t' = true ∧
    shape (mask t') = shape (mask demo_tool) ∧
    ∀ i j, in_bounds (mask demo_tool) i j →
      get_px (mask t') i j =
      if (j - 1) * (j - 1) + (i - 0) * (i - 0)
         <=? brush_size demo_tool * brush_size demo_tool
      then Some (if eraser_mode demo_tool then black else white)
      else get_px (mask demo_tool) i j.
Proof.
  apply (stamp_event_paints_disc demo_world demo_tool demo_world_key
           EVENT_LBUTTONDOWN 1 0 0).
  - exact demo_at_key.
  - by left.
Defined.

Lemma on_event_total t w ev : key_inv t w → ∃ t' w', on_event ev t w = Ok t' w'.
Proof.
  intros Hinv. destruct ev as [event x y flags|pos]; simpl.
  - unfold draw_mask, cv2_getTrackbarPos. munfold. simpl.
    destruct (stamp_in_session t w x y Hinv) as (m & -> & _ & Hu).
    destruct (event =? EVENT_LBUTTONDOWN); simpl.
    { rewrite Hu by done. eauto. }
    destruct (event =? EVENT_LBUTTONUP); [eauto|].
    destruct (event =? EVENT_MOUSEMOVE); [|eauto].
    destruct (drawing t) eqn:Hdr; [|eauto].
    simpl. rewrite Hu by done. eauto.
  - munfold. eauto.
Qed.

(** X4. The callbacks cannot end a waiting session: whatever mouse events
    and trackbar moves arrive while the session waits for a key, they are
    all handled, the session still waits for a key, and no file and no
    directory has changed. *)
Theorem callbacks_never_raise w0 t w evs :
  at_key w0 t w →
  ∃ t' w',
    dispatch evs t w = Ok t' w' ∧
    at_key w0 t' w' ∧
    w_files w' = w_files w ∧ w_dirs w' = w_dirs w ∧
    index t' = index t ∧ img_files t' = img_files t ∧
    mask_path t' = mask_path t.
Proof.
  revert t w. induction evs as [|ev evs IH]; intros t w Hk; simpl.
  - exists t, w. by repeat split.
  - pose proof (at_key_inv _ _ _ Hk) as [Hinv _].
    destruct (on_event_total t w ev Hinv) as (t1 & w1 & Hev).
    pose proof (at_key_event _ _ _ _ _ _ Hk Hev) as Hk1.
    destruct (IH t1 w1 Hk1) as (t' & w' & Hd & Hk' & Hf & Hdir & Hi & Hfs & Hmp).
    exists t', w'. munfold. rewrite Hev. split; [done|]. split; [done|].
    assert (w_dirs w1 = w_dirs w) as Hdirs.
    { destruct ev; simpl in Hev.
      - pose proof (draw_mask_world event x y flags t w) as Hw.
        rewrite Hev in Hw. simpl in Hw. by subst.
      - munfold. by injection Hev as <- <-. }
    apply on_event_inv in Hev as (_ & Hf1 & (? & ? & ? & ?) & _); [|done].
    repeat split; congruence.
Qed.

Lemma callbacks_never_raise_witness :
  ∃ t' w',
    dispatch [TrackbarMove 80; MouseEvent EVENT_LBUTTONDOWN 9 9 0;
              MouseEvent 7 0 0 0] demo_tool demo_world_key = Ok t' w' ∧
    at_key demo_world t' w' ∧
    w_files w' = w_files demo_world_key ∧ w_dirs w' = w_dirs demo_world_key ∧
    index t' = index demo_tool ∧ img_files t' = img_files demo_tool ∧
    mask_path t' = mask_path demo_tool.
Proof.
  apply (callbacks_never_raise demo_world demo_tool demo_world_key).
  exact demo_at_key.
Defined.

(** ** Navigation *)

Lemma on_event_same ev t w t' w' :
  on_event ev t w = Ok t' w' → same_image t t'.
Proof.
  destruct ev as [event x y flags|pos]; simpl.
  - intros H. by apply draw_mask_inv in H as (_ & ? & _).
  - munfold. intros [= <- <-]. by repeat split.
Qed.

Lemma dispatch_same evs : ∀ t w t' w',
  dispatch evs t w = Ok t' w' → same_image t t'.
Proof.
  induction evs as [|ev evs IH]; intros t w t' w'; simpl.
  - munfold. intros [= <- <-]. by repeat split.
  - munfold. destruct (on_event ev t w) as [t1 w1|] eqn:He; [|done].
    intros Hd. apply on_event_same in He as (? & ? & ? & ?).
    apply IH in Hd as (? & ? & ? & ?). repeat split; congruence.
Qed.

Lemma wait_key_same evs t w t' w' :
  wait_key evs t w = Ok t' w' → same_image t t'.
Proof.
  unfold wait_key. munfold.
  destruct (cv2_createTrackbar _ _ w) as [u w1|]; [|done].
  destruct (update_window t w1) as [u' w2|]; [|done].
  apply dispatch_same.
Qed.

Lemma wait_key_nil t w t' w' :
  wait_key [] t w = Ok t' w' → t' = t ∧ w_files w' = w_files w.
Proof.
  intros H. pose proof (wait_key_files [] t w) as Hf. rewrite H in Hf.
  split; [|done]. revert H. unfold wait_key. munfold.
  destruct (cv2_createTrackbar _ _ w) as [u w1|]; [|done].
  destruct (update_window t w1) as [u' w2|]; [|done].
  simpl. munfold. by intros [= <- _].
Qed.

(** What a navigation key has done when the handler returns. *)
Lemma on_key_nav_result key t w c w' :
  key = key_a ∨ key = key_d →
  on_key key t w = Ok c w' →
  ∃ t', c = Continue t' ∧
        w' = saved w (mask_path t) (collapse (mask t)) ∧
        (1 <= length (img_files t))%nat ∧
        initialize_mask (set_index t (nav_index key t)) w' = Ok t' w'.
Proof.
  intros Hk. unfold on_key.
  assert ((key =? key_ESC) || (key =? key_q) = false) as ->
    by (destruct Hk as [-> | ->]; reflexivity).
  assert ((key =? key_a) || (key =? key_d) = true) as ->
    by (destruct Hk as [-> | ->]; reflexivity).
  unfold mbind at 1. unfold M_bind at 1.
  destruct (save_mask t w) as [u w1|] eqn:Hsave; [|done].
  apply save_mask_inv in Hsave as [He ->].
  unfold mbind at 1. unfold M_bind at 1. unfold nav_index, py_mod.
  destruct (Z.eqb_spec (Z.of_nat (length (img_files t))) 0) as [H0|H0].
  { destruct (key =? key_a); done. }
  intros H.
  assert (∃ t', initialize_mask
                  (set_index t (if key =? key_a
                                then (index t - 1) `mod` Z.of_nat (length (img_files t))
                                else (index t + 1) `mod` Z.of_nat (length (img_files t))))
                  (saved w (mask_path t) (collapse (mask t))) = Ok t' w' ∧
                c = Continue t') as (t' & Hinit & ->).
  { revert H. destruct (key =? key_a); munfold; simpl;
      (destruct (initialize_mask _ _) as [t1 w1|]; [|done]);
      intros [= <- <-]; eauto. }
  match type of Hinit with
  | initialize_mask ?a ?b = _ =>
      pose proof (initialize_mask_world a b) as Hw
  end.
  rewrite Hinit in Hw. simpl in Hw. subst w'.
  exists t'. split; [done|]. split; [done|]. split; [lia|done].
Qed.

Lemma nav_index_shift key t :
  key = key_a ∨ key = key_d →
  nav_index key t =
  (index t + (if key =? key_a then -1 else 1)) `mod` Z.of_nat (length (img_files t)).
Proof. unfold nav_index. by intros [-> | ->]. Qed.

Lemma main_navigation key rounds : ∀ t w t' w',
  key = key_a ∨ key = key_d →
  Forall (λ r : list gui_event * Z, r.2 = key) rounds →
  0 <= index t < Z.of_nat (length (img_files t)) →
  main rounds t w = Ok t' w' →
  img_files t' = img_files t ∧
  index t' = (index t + (if key =? key_a then -1 else 1) * Z.of_nat (length rounds))
             `mod` Z.of_nat (length (img_files t)).
Proof.
  induction rounds as [|[evs k] rounds IH]; intros t w t' w' Hk Hall Hi; simpl.
  - munfold. intros [= <- <-]. split; [done|].
    rewrite Z.mul_0_r, Z.add_0_r, Z.mod_small; done.
  - apply Forall_cons in Hall as [Hk1 Hall]. simpl in Hk1. subst k.
    munfold. destruct (wait_key evs t w) as [t1 w1|] eqn:Hwait; [|done].
    apply wait_key_same in Hwait as (Hf1 & _ & Hi1 & _).
    destruct (on_key key t1 w1) as [c w2|] eqn:Hkey; [|done].
    apply (on_key_nav_result key t1 w1 c w2 Hk) in Hkey
      as (t2 & -> & _ & HN & Hinit).
    apply initialize_mask_inv in Hinit as (_ & f & m & _ & -> & _).
    intros Hmain. apply IH in Hmain as [Hf Hidx]; try done.
    + simpl in Hf, Hidx. split; [congruence|].
      rewrite Hidx, (nav_index_shift key t1 Hk), Hf1, Hi1.
      rewrite Z.add_mod_idemp_l by lia. f_equal. lia.
    + simpl. rewrite (nav_index_shift key t1 Hk). apply Z.mod_pos_bound. lia.
Qed.

(** X5. Navigation wraps around: as many presses of [d] (or as many of
    [a]) as there are pictures, with any mouse and trackbar events in
    between, bring the session back to the picture it started from. *)
Theorem navigation_wraps_around key rounds t w t' w' :
  key = key_a ∨ key = key_d →
  Forall (λ r : list gui_event * Z, r.2 = key) rounds →
  length rounds = length (img_files t) →
  0 <= index t < Z.of_nat (length (img_files t)) →
  main rounds t w = Ok t' w' →
  index t' = index t ∧ img_files t' = img_files t.
Proof.
  intros Hk Hall Hlen Hi Hmain.
  apply (main_navigation key) in Hmain as [Hf Hidx]; try done.
  split; [|done]. rewrite Hidx, Hlen, Z.mod_add by lia. by apply Z.mod_small.
Qed.

(** X6. There and back: from a session that waits for a key, [d], then
    [a] with no edit in between, leave the session on the picture it was on
    with the mask it had, reloaded from the file the first key wrote. *)
Theorem next_then_previous_restores w0 t w t1 w1 t2 w2 t3 w3 :
  binary_files w0 →
  at_key w0 t w →
  on_key key_d t w = Ok (Continue t1) w1 →
  wait_key [] t1 w1 = Ok t2 w2 →
  on_key key_a t2 w2 = Ok (Continue t3) w3 →
  index t3 = index t ∧ mask_path t3 = mask_path t ∧ mask t3 = mask t.
Proof.
  intros Hbin Hk Hd Hwait Ha.
  apply at_key_inv in Hk as [((_ & Hwf & Hi & f & Hf & Hp) & _) Hbw].
  destruct (Hbw Hbin) as [Hm _]. clear Hbw.
  pose proof (roundtrip_array (mask t) Hm) as Hrt.
  apply on_key_nav_result in Hd as (t1' & [= <-] & -> & HN & Hinit1); [|by right].
  apply wait_key_nil in Hwait as [-> Hfiles2].
  apply on_key_nav_result in Ha as (t3' & [= <-] & -> & _ & Hinit3); [|by left].
  apply initialize_mask_inv in Hinit1 as (_ & f1 & m1 & Hf1 & -> & Hm1).
  simpl in *.
  set (N := Z.of_nat (length (img_files t))) in *.
  assert (nav_index key_a
            (set_mask (set_mask_path (set_index t (nav_index key_d t))
                         (mask_path_of (save_dir t) f1)) m1) = index t) as Hback.
  { unfold nav_index. simpl. fold N.
    rewrite Zminus_mod_idemp_l. replace (index t + 1 - 1) with (index t) by lia.
    by apply Z.mod_small. }
  rewrite Hback in Hinit3.
  apply initialize_mask_inv in Hinit3 as (_ & f3 & m3 & Hf3 & -> & Hm3).
  unfold current_image in *. simpl in *.
  assert (f3 = f) as -> by congruence.
  split; [done|]. split; [done|].
  (* the file of the first picture, when the session comes back *)
  assert (m1 = mask t ∨ mask_path_of (save_dir t) f1 ≠ mask_path_of (save_dir t) f)
    as Hcase.
  { destruct (decide (mask_path_of (save_dir t) f1 = mask_path_of (save_dir t) f))
      as [Heq|Hne]; [left|by right].
    destruct Hm1 as [(b & Hb & _ & ->)|(Hnone & _)].
    - rewrite Heq, Hp, lookup_insert_eq in Hb. by injection Hb as <-.
    - rewrite Heq, Hp, lookup_insert_eq in Hnone. done. }
  destruct Hm3 as [(b & Hb & _ & ->)|(Hnone & _)].
  - destruct Hcase as [-> | Hne].
    + destruct (decide (mask_path_of (save_dir t) f1 = mask_path_of (save_dir t) f))
        as [Heq|Hne].
      * rewrite Heq, lookup_insert_eq in Hb. by injection Hb as <-.
      * rewrite lookup_insert_ne, Hfiles2 in Hb by done. simpl in Hb.
        rewrite Hp, lookup_insert_eq in Hb. by injection Hb as <-.
    + rewrite lookup_insert_ne, Hfiles2 in Hb by done. simpl in Hb.
      rewrite Hp, lookup_insert_eq in Hb. by injection Hb as <-.
  - exfalso.
    destruct (decide (mask_path_of (save_dir t) f1 = mask_path_of (save_dir t) f))
      as [Heq|Hne].
    + rewrite Heq, lookup_insert_eq in Hnone. done.
    + rewrite lookup_insert_ne, Hfiles2 in Hnone by done. simpl in Hnone.
      rewrite Hp, lookup_insert_eq in Hnone. done.
Qed.

Lemma scenario_at_top : at_top scenario_world scenario_tool scenario_world_top.
Proof.
  apply (top_start scenario_world "images" (Some "outputs"%string)).
  vm_compute. reflexivity.
Qed.

Lemma scenario_at_key : at_key scenario_world scenario_tool scenario_world_key.
Proof.
  exists scenario_tool, scenario_world_top, []. split; [apply scenario_at_top|].
  vm_compute. reflexivity.
Qed.

Lemma scenario_binary_files : binary_files scenario_world.
Proof.
  intros p a. unfold scenario_world. simpl.
  destruct (decide (p = "images/a.png"%string)) as [->|Hne1].
  { rewrite lookup_insert_eq. done. }
  rewrite lookup_insert_ne by done.
  destruct (decide (p = "images/b.jpg"%string)) as [->|Hne2].
  { rewrite lookup_insert_eq. done. }
  rewrite lookup_insert_ne by done. by rewrite lookup_empty.
Qed.

Lemma navigation_wraps_around_witness :
  ∃ t' w',
    main [([], key_d); ([MouseEvent EVENT_LBUTTONDOWN 3 3 0], key_d)]
         scenario_tool scenario_world_top = Ok t' w' ∧
    index t' = index scenario_tool ∧ img_files t' = img_files scenario_tool.
Proof.
  eexists _, _. split; [vm_compute; reflexivity|].
  eapply (navigation_wraps_around key_d
            [([], key_d); ([MouseEvent EVENT_LBUTTONDOWN 3 3 0], key_d)]
            scenario_tool scenario_world_top).
  - by right.
  - by repeat constructor.
  - reflexivity.
  - simpl. lia.
  - vm_compute. reflexivity.
Defined.

Lemma next_then_previous_restores_witness :
  ∃ t0 wk t1 w1 t2 w2 t3 w3,
    dispatch [MouseEvent EVENT_LBUTTONDOWN 4 4 0] scenario_tool scenario_world_key
      = Ok t0 wk ∧
    on_key key_d t0 wk = Ok (Continue t1) w1 ∧
    wait_key [] t1 w1 = Ok t2 w2 ∧
    on_key key_a t2 w2 = Ok (Continue t3) w3 ∧
    index t3 = index t0 ∧ mask_path t3 = mask_path t0 ∧ mask t3 = mask t0.
Proof.
  eexists _, _, _, _, _, _, _, _.
  split; [vm_compute; reflexivity|].
  split; [vm_compute; reflexivity|].
  split; [vm_compute; reflexivity|].
  split; [vm_compute; reflexivity|].
  eapply (next_then_previous_restores scenario_world).
  - exact scenario_binary_files.
  - eapply (at_key_event scenario_world scenario_tool scenario_world_key
              (MouseEvent EVENT_LBUTTONDOWN 4 4 0)); [exact scenario_at_key|].
    vm_compute. reflexivity.
  - vm_compute. reflexivity.
  - vm_compute. reflexivity.
  - vm_compute. reflexivity.
Defined.

(** ** What the session writes, and what it never touches *)

Lemma list_ascii_app a b :
  list_ascii_of_string (a +:+ b) = list_ascii_of_string a ++ list_ascii_of_string b.
Proof. induction a as [|c a IH]; simpl; [done|]. by rewrite IH. Qed.

Lemma path_join_suffix a b :
  list_ascii_of_string b `suffix_of` list_ascii_of_string (path_join a b).
Proof.
  unfold path_join. destruct (starts_with slash b); [done|].
  destruct (_ || _); rewrite !list_ascii_app.
  - by apply suffix_app_r.
  - by do 2 apply suffix_app_r.
Qed.

Lemma mask_path_of_npy sd f : npy_path (mask_path_of sd f).
Proof.
  unfold npy_path, mask_path_of. etrans; [|apply path_join_suffix].
  rewrite list_ascii_app. by apply suffix_app_r.
Qed.

Lemma npy_path_last p :
  npy_path p → last (list_ascii_of_string p) = Some "y"%char.
Proof. intros [k ->]. by rewrite last_app. Qed.

Lemma match_classes_last classes : ∀ ext,
  classes ≠ [] → match_classes classes ext = true →
  ∃ lo up c, last classes = Some (lo, up) ∧ last ext = Some c ∧
             (c = lo ∨ c = up).
Proof.
  induction classes as [|[lo up] cs IH]; intros ext Hne; [done|].
  destruct ext as [|a ext]; simpl; [done|].
  rewrite andb_true_iff, orb_true_iff, !Ascii.eqb_eq. intros [Ha Hm].
  destruct cs as [|c' cs].
  - destruct ext; [|done]. exists lo, up, a. by repeat split.
  - destruct (IH ext) as (lo' & up' & c & Hl & He & Hc); [done|done|].
    exists lo', up', c. split; [done|]. split; [|done].
    destruct ext; [done|]. done.
Qed.

Lemma match_ext_last cl n :
  cl ∈ [jpg_classes; jpeg_classes; png_classes] →
  match_ext cl n = true →
  last (list_ascii_of_string n) = Some "g"%char
  ∨ last (list_ascii_of_string n) = Some "G"%char.
Proof.
  intros Hcl. unfold match_ext.
  set (l := list_ascii_of_string n).
  rewrite !andb_true_iff. intros [_ Hd].
  destruct (drop _ l) as [|a ext] eqn:Hdrop; [done|].
  apply andb_true_iff in Hd as [_ Hm].
  apply match_classes_last in Hm as (lo & up & c & Hl & Hc' & Hc);
    [|intros ->; apply list_elem_of_In in Hcl; simpl in Hcl;
      destruct Hcl as [H|[H|[H|[]]]]; discriminate].
  assert (last l = Some c) as ->.
  { rewrite <- (take_drop (length l - S (length cl)) l), Hdrop, last_app,
      last_cons, Hc'. done. }
  assert ((lo, up) = ("g", "G")%char) as [= -> ->].
  { apply list_elem_of_In in Hcl. simpl in Hcl.
    destruct Hcl as [<-|[<-|[<-|[]]]]; simpl in Hl; congruence. }
  destruct Hc as [-> | ->]; auto.
Qed.

Lemma picture_path_not_npy f : picture_path f → ¬ npy_path f.
Proof.
  intros (d & n & cl & -> & Hcl & Hm) Hnpy. apply npy_path_last in Hnpy.
  pose proof (match_ext_last cl n Hcl Hm) as Hlast.
  destruct (path_join_suffix d n) as [k Hk]. rewrite Hk, last_app in Hnpy.
  destruct Hlast as [Hl|Hl]; rewrite Hl in Hnpy; done.
Qed.

Lemma save_mask_world t w :
  world_of (save_mask t w) = w
  ∨ world_of (save_mask t w) = saved w (mask_path t) (collapse (mask t)).
Proof.
  unfold save_mask, cv2_cvtColor_BGR2GRAY, np_save. munfold.
  destruct (is_empty (mask t)); simpl; [by left|right; reflexivity].
Qed.

Lemma on_key_world key t w :
  world_of (on_key key t w) = w
  ∨ world_of (on_key key t w) = saved w (mask_path t) (collapse (mask t)).
Proof.
  remember (on_key key t w) as r eqn:Hr. revert Hr. unfold on_key.
  destruct (_ || _); [intros ->; by left|].
  destruct (_ || _).
  - unfold mbind at 1. unfold M_bind at 1.
    pose proof (save_mask_world t w) as Hs.
    destruct (save_mask t w) as [u w1|]; simpl in Hs; [|by intros ->].
    unfold mbind at 1. unfold M_bind at 1.
    assert (∀ r : exn + Z,
              world_of (match lift r w1 with
                        | Ok a w' => (initialize_mask (set_index t a)
                                      ≫= λ t0, mret (Continue t0)) w'
                        | Raise e w' => Raise e w'
                        end) = w1) as Hw.
    { intros [e|i]; munfold; [done|].
      pose proof (initialize_mask_world (set_index t i) w1) as Hi.
      destruct (initialize_mask _ _); simpl in *; done. }
    intros ->. by rewrite Hw.
  - destruct (key =? key_e); [intros ->; by left|].
    destruct (key =? key_r); [|intros ->; by left].
    munfold. simpl.
    match goal with
    | |- context [update_window ?a ?b] =>
        pose proof (update_window_world a b) as Hu; destruct (update_window a b)
    end; simpl in *; subst; intros ->; by left.
Qed.

Lemma saved_other w p q a :
  q ≠ p → w_files (saved w p a) !! q = w_files w !! q.
Proof. intros Hne. unfold saved. simpl. by rewrite lookup_insert_ne. Qed.

Lemma on_key_frame key t w p :
  top_inv t → ¬ npy_path p →
  w_files (world_of (on_key key t w)) !! p = w_files w !! p.
Proof.
  intros (_ & _ & _ & f & _ & Hp) Hnpy.
  destruct (on_key_world key t w) as [-> | ->]; [done|].
  apply saved_other. intros ->. apply Hnpy. rewrite Hp. apply mask_path_of_npy.
Qed.

Lemma main_frame rounds : ∀ t w p,
  top_inv t → ¬ npy_path p →
  w_files (world_of (main rounds t w)) !! p = w_files w !! p.
Proof.
  induction rounds as [|[evs key] rounds IH]; intros t w p Ht Hnpy; simpl; [done|].
  munfold. pose proof (wait_key_files evs t w) as Hf.
  destruct (wait_key evs t w) as [t1 w1|] eqn:Hwait; simpl in Hf;
    [|simpl; by rewrite Hf].
  apply wait_key_inv in Hwait as (Hk1 & _); [|done].
  pose proof (on_key_frame key t1 w1 p (proj1 Hk1) Hnpy) as Hkf.
  destruct (on_key key t1 w1) as [c w2|] eqn:Hkey; simpl in Hkf;
    [|simpl; by rewrite Hkf, Hf].
  destruct c as [t2|t2]; [|simpl; by rewrite Hkf, Hf].
  apply on_key_continue_inv in Hkey as [Ht2 _]; [|done].
  by rewrite IH, Hkf, Hf.
Qed.

Lemma at_top_frame w0 t w p :
  at_top w0 t w → ¬ npy_path p → w_files w !! p = w_files w0 !! p.
Proof.
  intros Htop Hnpy.
  induction Htop as [d s t w Hinit|t w evs key t1 w1 t2 w2 Htop IH Hwait Hkey].
  - apply __init___inv in Hinit as (_ & -> & _). done.
  - apply at_top_inv in Htop as [Ht _].
    pose proof (wait_key_files evs t w) as Hf. rewrite Hwait in Hf. simpl in Hf.
    apply wait_key_inv in Hwait as (Hk1 & _); [|done].
    pose proof (on_key_frame key t1 w1 p (proj1 Hk1) Hnpy) as Hkf.
    rewrite Hkey in Hkf. simpl in Hkf. by rewrite Hkf, Hf.
Qed.

(** X7. A session only ever writes mask files: from its construction to
    the end of any run of [main], however the run ends, every file whose
    path does not end in [.npy] is what it was before the session started. *)
Theorem session_writes_only_npy w0 t w rounds p :
  at_top w0 t w →
  ¬ npy_path p →
  w_files (world_of (main rounds t w)) !! p = w_files w0 !! p.
Proof.
  intros Htop Hnpy. pose proof (at_top_inv _ _ _ Htop) as [Ht _].
  rewrite main_frame by done. by apply (at_top_frame w0 t w).
Qed.

Lemma session_writes_only_npy_witness :
  w_files (world_of (main scenario_rounds scenario_tool scenario_world_top))
    !! "images/a.png"%string
  = w_files scenario_world !! "images/a.png"%string.
Proof.
  apply (session_writes_only_npy scenario_world scenario_tool scenario_world_top
           scenario_rounds "images/a.png").
  - exact scenario_at_top.
  - intros Hn. apply npy_path_last in Hn. vm_compute in Hn. discriminate.
Defined.

(** ** The constructor *)

Lemma insert_sorted_elem s l x : x ∈ insert_sorted s l ↔ x = s ∨ x ∈ l.
Proof.
  induction l as [|y l IH]; simpl.
  - rewrite list_elem_of_singleton, elem_of_nil. tauto.
  - destruct (String.leb s y); rewrite !elem_of_cons; [tauto|].
    rewrite IH. tauto.
Qed.

Lemma sorted_elem l x : x ∈ sorted l ↔ x ∈ l.
Proof.
  induction l as [|y l IH]; simpl; [done|].
  rewrite insert_sorted_elem, elem_of_cons, IH. done.
Qed.

Lemma insert_sorted_ascending s l : ascending l → ascending (insert_sorted s l).
Proof.
  induction l as [|y l IH]; simpl; [done|]. intros [Hy Hl].
  destruct (String.leb s y) eqn:Hsy; [simpl; auto|].
  assert (String.leb y s = true) as Hys
    by (destruct (String.leb_total s y); congruence).
  specialize (IH Hl). simpl. split; [|done].
  destruct l as [|z l]; simpl in *; [done|].
  destruct (String.leb s z); done.
Qed.

Lemma sorted_ascending l : ascending (sorted l).
Proof.
  induction l as [|y l IH]; simpl; [done|]. by apply insert_sorted_ascending.
Qed.

Lemma rfind_from_app c l1 : ∀ l2 pos last,
  rfind_from c (l1 ++ l2) pos last =
  rfind_from c l2 (pos + Z.of_nat (length l1)) (rfind_from c l1 pos last).
Proof.
  induction l1 as [|a l1 IH]; intros l2 pos last; simpl.
  - by rewrite Z.add_0_r.
  - rewrite IH. f_equal. lia.
Qed.

Lemma rfind_from_absent c l : ∀ pos last,
  c ∉ l → rfind_from c l pos last = last.
Proof.
  induction l as [|a l IH]; intros pos last Hc; simpl; [done|].
  apply not_elem_of_cons in Hc as [Hne Hc]. rewrite IH by done.
  destruct (Ascii.eqb_spec a c); congruence.
Qed.

Lemma rfind_absent c l : c ∉ l → rfind c l = -1.
Proof. apply rfind_from_absent. Qed.

Lemma rfind_last c l1 l2 :
  c ∉ l2 → rfind c (l1 ++ c :: l2) = Z.of_nat (length l1).
Proof.
  intros Hc. unfold rfind. rewrite rfind_from_app. simpl.
  rewrite Ascii.eqb_refl. by rewrite rfind_from_absent.
Qed.

Lemma lstrip_slash_not_slash a l :
  a ≠ slash → lstrip_slash (a :: l) = a :: l.
Proof. intros Hne. simpl. by destruct (Ascii.eqb_spec a slash). Qed.

Lemma rstrip_slash_snoc_slash l : rstrip_slash (l ++ [slash]) = rstrip_slash l.
Proof. unfold rstrip_slash. by rewrite rev_app_distr. Qed.

Lemma forallb_slash_snoc l a :
  a ≠ slash → forallb (λ a, Ascii.eqb a slash) (l ++ [a]) = false.
Proof.
  intros Hne. rewrite forallb_app. simpl.
  destruct (Ascii.eqb_spec a slash); [done|]. by rewrite andb_false_r.
Qed.

(** The head of a directory joined with a name that holds no slash. *)
Lemma os_path_split_join d p :
  p ≠ ""%string → slash ∉ list_ascii_of_string p →
  (os_path_split (path_join d p)).1 = glob_dirname d.
Proof.
  intros Hp Hs. unfold os_path_split, path_join, glob_dirname.
  assert (starts_with slash p = false) as ->.
  { destruct p as [|a p]; [done|]. simpl in *.
    apply not_elem_of_cons in Hs as [Hne _].
    destruct (Ascii.eqb_spec a slash); congruence. }
  destruct (String.eqb_spec d "") as [->|Hd]; cbn [orb fst].
  - cbn [append list_ascii_of_string]. rewrite rfind_absent by done. done.
  - unfold ends_with.
    destruct (rev (list_ascii_of_string d)) as [|a r] eqn:Hrev.
    { apply (f_equal (@rev ascii)) in Hrev. rewrite rev_involutive in Hrev.
      simpl in Hrev. destruct d; done. }
    apply (f_equal (@rev ascii)) in Hrev. rewrite rev_involutive in Hrev.
    cbn [rev] in Hrev.
    destruct (Ascii.eqb_spec a slash) as [->|Hne].
    + rewrite list_ascii_app, Hrev, <- app_assoc.
      change ([slash] ++ list_ascii_of_string p) with (slash :: list_ascii_of_string p).
      rewrite rfind_last by done.
      replace (Z.to_nat (Z.of_nat (length (rev r)) + 1))
        with (length (rev r ++ [slash])) by (rewrite length_app; simpl; lia).
      rewrite (cons_middle slash (rev r) (list_ascii_of_string p)), app_assoc.
      by rewrite take_app_length.
    + rewrite !list_ascii_app.
      change (list_ascii_of_string "/") with [slash].
      change ([slash] ++ list_ascii_of_string p) with (slash :: list_ascii_of_string p).
      rewrite rfind_last by done.
      replace (Z.to_nat (Z.of_nat (length (list_ascii_of_string d)) + 1))
        with (length (list_ascii_of_string d ++ [slash]))
        by (rewrite length_app; simpl; lia).
      rewrite (cons_middle slash (list_ascii_of_string d) (list_ascii_of_string p)),
        app_assoc, take_app_length.
      rewrite rstrip_slash_snoc_slash, Hrev, forallb_app.
      by rewrite !forallb_slash_snoc.
Qed.

Lemma pattern_of_plain cl :
  cl ∈ [jpg_classes; jpeg_classes; png_classes] →
  pattern_of cl ≠ ""%string ∧ slash ∉ list_ascii_of_string (pattern_of cl).
Proof.
  intros Hcl. apply list_elem_of_In in Hcl. simpl in Hcl.
  destruct Hcl as [<-|[<-|[<-|[]]]]; (split; [done|]); vm_compute; intros H;
    repeat (apply elem_of_cons in H as [H|H]; [discriminate|]);
    by apply elem_of_nil in H.
Qed.

(** The three patterns of the constructor search the same directories. *)
Lemma glob_dirs_searched w d cl :
  cl ∈ [jpg_classes; jpeg_classes; png_classes] →
  glob_dirs w (path_join d (pattern_of cl)) = searched_dirs w d.
Proof.
  intros Hcl. apply pattern_of_plain in Hcl as [Hp Hs].
  unfold glob_dirs, searched_dirs. by rewrite os_path_split_join.
Qed.

(** The pictures [glob] finds for one pattern. *)
Lemma glob_in_elem w d cl f :
  f ∈ glob_in w d cl ↔
  ∃ dirname n, dirname ∈ glob_dirs w (path_join d (pattern_of cl)) ∧
               n ∈ listdir w dirname ∧ match_ext cl n = true ∧
               f = path_join dirname n.
Proof.
  unfold glob_in. rewrite list_elem_of_bind. split.
  - intros (dirname & Hf & Hd). apply list_elem_of_fmap in Hf as (n & -> & Hn).
    apply list_elem_of_filter in Hn as [Hm Hn]. eauto 10.
  - intros (dirname & n & Hd & Hn & Hm & ->). exists dirname. split; [|done].
    apply list_elem_of_fmap. exists n. split; [done|].
    by apply list_elem_of_filter.
Qed.

Lemma listed_pictures_elem w d f :
  f ∈ listed_pictures w d ↔
  ∃ dirname n, dirname ∈ searched_dirs w d ∧ n ∈ listdir w dirname ∧
               is_picture_name n = true ∧ f = path_join dirname n.
Proof.
  unfold listed_pictures, is_picture_name.
  rewrite sorted_elem, !elem_of_app, !glob_in_elem.
  rewrite !glob_dirs_searched by set_solver. split.
  - intros [(dn & n & ? & ? & Hm & ?)|[(dn & n & ? & ? & Hm & ?)|(dn & n & ? & ? & Hm & ?)]];
      exists dn, n; rewrite Hm, ?orb_true_r; done.
  - intros (dn & n & Hd & Hn & Hm & ->).
    rewrite !orb_true_iff in Hm. destruct Hm as [[Hm|Hm]|Hm]; eauto 10.
Qed.

(** The fields the constructor sets before it loads the first mask. *)
Lemma __init___fields d s w t w' :
  __init__ d s w = Ok t w' →
  img_files t = listed_pictures w d ∧
  index t = 0 ∧ brush_size t = 5 ∧ drawing t = false ∧ eraser_mode t = false.
Proof.
  intros H. apply __init___split in H as (w1 & _ & _ & H).
  apply initialize_mask_inv in H as (_ & f & m & _ & -> & _). done.
Qed.

(** X8. The session lists exactly the entries of the directories that
    [glob] searches (the image directory without its trailing slashes, or the
    directories it expands to when its name holds [*], [?] or [[]) whose names
    match one of the three patterns (a name that begins with a dot matches
    none), each joined to its directory, in ascending string order; it starts
    on the first of them, with brush size 5, not drawing and not erasing. *)
Theorem init_lists_pictures_in_order d s w t w' :
  __init__ d s w = Ok t w' →
  ascending (img_files t) ∧
  (∀ f, f ∈ img_files t ↔
        ∃ dirname n, dirname ∈ searched_dirs w d ∧ n ∈ listdir w dirname ∧
                     is_picture_name n = true ∧ f = path_join dirname n) ∧
  current_image t = py_index (img_files t) 0 ∧
  brush_size t = 5 ∧ drawing t = false ∧ eraser_mode t = false.
Proof.
  intros H. apply __init___fields in H as (Hf & Hi & Hb & Hd & He).
  split; [rewrite Hf; apply sorted_ascending|].
  split; [|unfold current_image; by rewrite Hi].
  intros f. rewrite Hf. apply listed_pictures_elem.
Qed.

Lemma init_lists_pictures_in_order_witness :
  ascending (img_files scenario_tool) ∧
  (∀ f, f ∈ img_files scenario_tool ↔
        ∃ dirname n, dirname ∈ searched_dirs scenario_world "images" ∧
                     n ∈ listdir scenario_world dirname ∧
                     is_picture_name n = true ∧ f = path_join dirname n) ∧
  current_image scenario_tool = py_index (img_files scenario_tool) 0 ∧
  brush_size scenario_tool = 5 ∧ drawing scenario_tool = false ∧
  eraser_mode scenario_tool = false.
Proof.
  apply (init_lists_pictures_in_order "images" (Some "outputs"%string)
           scenario_world scenario_tool scenario_world_top).
  vm_compute. reflexivity.
Defined.

(** Without magic characters in its name the image directory itself is
    searched, whatever trailing slashes it is written with; with them, the
    directories it expands to. *)
Lemma searched_dirs_examples :
  searched_dirs scenario_world "images" = ["images"%string] ∧
  searched_dirs scenario_world "images//" = ["images"%string] ∧
  searched_dirs scenario_world "" = [""%string] ∧
  searched_dirs (MkWorld ∅ ∅ 0 (<["imgs[1]" := ["imgs1"]]> ∅)) "imgs[1]"
    = ["imgs1"%string].
Proof. vm_compute. repeat split. Qed.

Lemma on_key_img_files key t w t' w' :
  on_key key t w = Ok (Continue t') w' → img_files t' = img_files t.
Proof.
  destruct (decide (key = key_a ∨ key = key_d)) as [Hk|Hk].
  - intros H. apply on_key_nav_result in H as (t1 & [= <-] & _ & _ & Hinit); [|done].
    by apply initialize_mask_inv in Hinit as (_ & f & m & _ & -> & _).
  - unfold on_key. destruct (_ || _); [by munfold|].
    destruct ((key =? key_a) || (key =? key_d)) eqn:Hnav.
    { destruct Hk. apply orb_true_iff in Hnav as [H%Z.eqb_eq|H%Z.eqb_eq]; auto. }
    destruct (key =? key_e); [munfold; by intros [= <- _]|].
    destruct (key =? key_r); [|munfold; by intros [= <- _]].
    munfold. simpl. destruct (update_window _ _); [|done]. by intros [= <- _].
Qed.

Lemma at_top_pictures w0 t w :
  at_top w0 t w → ∀ f, f ∈ img_files t → picture_path f.
Proof.
  induction 1 as [d s t w Hinit|t w evs key t1 w1 t2 w2 _ IH Hwait Hkey];
    intros f Hf.
  - apply __init___fields in Hinit as (Hfs & _).
    unfold listed_pictures in Hfs.
    rewrite Hfs, sorted_elem, !elem_of_app, !glob_in_elem in Hf.
    destruct Hf as [(dn & n & _ & _ & Hm & ->)|[(dn & n & _ & _ & Hm & ->)
                   |(dn & n & _ & _ & Hm & ->)]];
      exists dn, n; eexists; (split; [done|]); (split; [|exact Hm]); set_solver.
  - apply wait_key_same in Hwait as (Hf1 & _).
    apply on_key_img_files in Hkey. apply IH. congruence.
Qed.

(** X9. A session never overwrites a picture it lists: however a run of
    [main] goes and ends, the file of every listed picture is what it was
    before the session started. *)
Theorem pictures_never_overwritten w0 t w rounds f :
  at_top w0 t w →
  f ∈ img_files t →
  w_files (world_of (main rounds t w)) !! f = w_files w0 !! f.
Proof.
  intros Htop Hf. apply session_writes_only_npy; [done|].
  apply picture_path_not_npy. by apply (at_top_pictures w0 t w).
Qed.

Lemma pictures_never_overwritten_witness :
  w_files (world_of (main scenario_rounds scenario_tool scenario_world_top))
    !! "images/b.jpg"%string
  = w_files scenario_world !! "images/b.jpg"%string.
Proof.
  apply (pictures_never_overwritten scenario_world scenario_tool
           scenario_world_top scenario_rounds "images/b.jpg").
  - exact scenario_at_top.
  - simpl. set_solver.
Defined.

Lemma mkdir_raises name w e w' :
  mkdir name w = Raise e w' →
  e ∈ [FileExistsError; FileNotFoundError; NotADirectoryError].
Proof.
  unfold mkdir. munfold. destruct (os_path_split _) as [head tail].
  repeat match goal with
         | |- context [if ?b then _ else _] =>
             destruct b; [intros [= <- _]; set_solver|]
         end.
  done.
Qed.

Lemma makedirs_rec_raises fuel : ∀ name w e w',
  makedirs_rec fuel name w = Raise e w' →
  e ∈ [FileExistsError; FileNotFoundError; NotADirectoryError].
Proof.
  induction fuel as [|fuel IH]; intros name w e w';
    cbn [makedirs_rec]; [apply mkdir_raises|].
  destruct (os_path_split name) as [head tail].
  destruct (if String.eqb tail "" then os_path_split head else (head, tail))
    as [head' tail'].
  unfold path_exists. munfold. cbn beta iota.
  destruct (_ && _); [|apply mkdir_raises].
  unfold try_except.
  destruct (makedirs_rec fuel head' w) as [[] w1|e1 w1] eqn:Hrec.
  - destruct (String.eqb tail' "."); [done|apply mkdir_raises].
  - apply IH in Hrec. case_decide.
    + destruct (String.eqb tail' "."); [done|apply mkdir_raises].
    + by intros [= <- _].
Qed.

(** X10. Without a picture in the directories that [glob] searches, the
    constructor never returns a session and touches no file.  With the save
    directory in place it raises [IndexError] when it reaches for the first
    picture, and the world stays as it is.  Otherwise [os.makedirs] runs on
    the save directory: when it returns, [IndexError] follows in the world it
    leaves; when it fails (on a regular file, say), its error ends the
    constructor. *)
Theorem init_without_pictures d s w :
  (∀ dirname n, dirname ∈ searched_dirs w d → n ∈ listdir w dirname →
                is_picture_name n = false) →
  ∃ e w',
    __init__ d s w = Raise e w' ∧
    w_files w' = w_files w ∧
    (is_Some (w_dirs w !! chosen_save_dir d s) → e = IndexError ∧ w' = w) ∧
    (w_dirs w !! chosen_save_dir d s = None →
     e = IndexError ∧ makedirs (chosen_save_dir d s) w = Ok tt w'
     ∨ e ∈ [FileExistsError; FileNotFoundError; NotADirectoryError] ∧
       makedirs (chosen_save_dir d s) w = Raise e w').
Proof.
  intros Hnone.
  assert (listed_pictures w d = []) as Hl.
  { apply elem_of_nil_inv. intros f Hf.
    apply listed_pictures_elem in Hf as (dn & n & Hd & Hn & Hm & _).
    rewrite (Hnone dn n) in Hm; done. }
  unfold __init__, glob, isdir. munfold. simpl.
  fold (chosen_save_dir d s). fold (listed_pictures w d). rewrite Hl.
  set (sd := chosen_save_dir d s).
  destruct (bool_decide (is_Some (w_dirs w !! sd))) eqn:Hd; simpl.
  - apply bool_decide_eq_true in Hd.
    exists IndexError, w. split; [done|]. split; [done|]. split; [done|].
    intros Hn. rewrite Hn in Hd. by destruct Hd.
  - apply bool_decide_eq_false in Hd.
    pose proof (keeps_files_makedirs sd w) as Hf.
    destruct (makedirs sd w) as [[] w1|e w1] eqn:Hmk; simpl in Hf.
    + exists IndexError, w1. split; [done|]. split; [done|].
      split; [intros Hs; by destruct Hd|]. intros _. by left.
    + exists e, w1. split; [done|]. split; [done|].
      split; [intros Hs; by destruct Hd|]. intros _. right.
      split; [by eapply makedirs_rec_raises|done].
Qed.

Lemma init_without_pictures_witness :
  ∃ e w',
    __init__ "outputs" None scenario_world_top = Raise e w' ∧
    w_files w' = w_files scenario_world_top ∧
    (is_Some (w_dirs scenario_world_top !! chosen_save_dir "outputs" None) →
     e = IndexError ∧ w' = scenario_world_top) ∧
    (w_dirs scenario_world_top !! chosen_save_dir "outputs" None = None →
     e = IndexError ∧
     makedirs (chosen_save_dir "outputs" None) scenario_world_top = Ok tt w'
     ∨ e ∈ [FileExistsError; FileNotFoundError; NotADirectoryError] ∧
       makedirs (chosen_save_dir "outputs" None) scenario_world_top = Raise e w').
Proof.
  apply (init_without_pictures "outputs" None scenario_world_top).
  intros dirname n Hd Hn. vm_compute in Hd.
  apply list_elem_of_singleton in Hd as ->.
  vm_compute in Hn. by apply elem_of_nil in Hn.
Defined.

(** Both ways of failing occur: in a directory without pictures the save
    directory is made and [IndexError] follows; on a save directory that is a
    regular file [os.makedirs] raises [FileExistsError], with pictures or
    without. *)
Lemma init_failures :
  (∃ w', __init__ "outputs" (Some "masks"%string) scenario_world_top
           = Raise IndexError w' ∧
         w_dirs w' !! "masks"%string = Some []) ∧
  __init__ "images" (Some "notes.txt"%string)
    (saved scenario_world "notes.txt" (NdArray 0 0 []))
  = Raise FileExistsError (saved scenario_world "notes.txt" (NdArray 0 0 [])).
Proof. split; [eexists; split|]; vm_compute; reflexivity. Qed.

(** ** Fatal conditions, and what always holds while waiting *)

(** X11. A stored mask of another size than its picture is loaded by
    [initialize_mask] as it is, and ends the session at the next frame:
    [update_window] raises before any key is read, so nothing is written. *)
Theorem wrong_size_mask_is_fatal t w f img b evs :
  current_image t = inr f →
  imread_in (w_files w) f = Some img →
  w_files w !! mask_path_of (save_dir t) f = Some (NpyFile b) →
  well_formed b →
  shape b ≠ shape img →
  ∃ t' w',
    initialize_mask t w = Ok t' w ∧
    mask t' = stack3_times_255 b ∧
    wait_key evs t' w = Raise CvError w' ∧
    w_files w' = w_files w.
Proof.
  intros Hf Hi Hb Hwf Hsh. unfold current_image in Hf.
  exists (set_mask (set_mask_path t (mask_path_of (save_dir t) f))
            (stack3_times_255 b)).
  exists (MkWorld (w_files w) (w_dirs w) (clamp 0 50 (brush_size t)) (w_glob w)).
  split.
  { unfold initialize_mask, path_exists, np_load. munfold. simpl.
    rewrite Hf. simpl. rewrite Hb.
    rewrite bool_decide_true by eauto. simpl.
    rewrite Hb, bool_decide_true by done. done. }
  split; [done|]. split; [|done].
  unfold wait_key, cv2_createTrackbar, update_window, cv2_imread,
    cv2_addWeighted_check. munfold. simpl.
  rewrite Hf. simpl. rewrite Hi. simpl.
  rewrite bool_decide_false; [done|].
  intros Heq. apply Hsh. by rewrite Heq.
Qed.

Lemma wrong_size_mask_is_fatal_witness :
  ∃ t' w',
    initialize_mask scenario_tool
      (saved scenario_world_key "outputs/a.npy" (NdArray 1 2 [0; 1])) = Ok t'
      (saved scenario_world_key "outputs/a.npy" (NdArray 1 2 [0; 1])) ∧
    mask t' = stack3_times_255 (NdArray 1 2 [0; 1]) ∧
    wait_key [] t' (saved scenario_world_key "outputs/a.npy" (NdArray 1 2 [0; 1]))
      = Raise CvError w' ∧
    w_files w'
      = w_files (saved scenario_world_key "outputs/a.npy" (NdArray 1 2 [0; 1])).
Proof.
  apply (wrong_size_mask_is_fatal scenario_tool
           (saved scenario_world_key "outputs/a.npy" (NdArray 1 2 [0; 1]))
           "images/a.png" scenario_picture (NdArray 1 2 [0; 1]) []).
  - reflexivity.
  - vm_compute. reflexivity.
  - vm_compute. reflexivity.
  - reflexivity.
  - discriminate.
Defined.

(** X12. A listed picture that cannot be decoded ends the session with
    [AttributeError]: at the first frame in any case, and already in
    [initialize_mask] when the picture has no stored mask.  No file is
    written. *)
Theorem unreadable_picture_is_fatal t w f evs :
  current_image t = inr f →
  imread_in (w_files w) f = None →
  (∃ w', wait_key evs t w = Raise AttributeError w' ∧ w_files w' = w_files w) ∧
  (w_files w !! mask_path_of (save_dir t) f = None →
   w_dirs w !! mask_path_of (save_dir t) f = None →
   initialize_mask t w = Raise AttributeError w).
Proof.
  intros Hf Hi. unfold current_image in Hf. split.
  - exists (MkWorld (w_files w) (w_dirs w) (clamp 0 50 (brush_size t)) (w_glob w)).
    split; [|done].
    unfold wait_key, cv2_createTrackbar, update_window, cv2_imread. munfold.
    simpl. rewrite Hf. simpl. by rewrite Hi.
  - intros Hn Hd.
    unfold initialize_mask, path_exists, cv2_imread. munfold. simpl.
    rewrite Hf. simpl. rewrite Hn, Hd.
    rewrite !bool_decide_false by (by intros [? ?]). simpl.
    by rewrite Hi.
Qed.

Lemma unreadable_picture_is_fatal_witness :
  (∃ w', wait_key [] scenario_tool
           (mkWorld ∅ (w_dirs scenario_world_top) 0) = Raise AttributeError w' ∧
         w_files w' = w_files (mkWorld ∅ (w_dirs scenario_world_top) 0)) ∧
  (w_files (mkWorld ∅ (w_dirs scenario_world_top) 0)
     !! mask_path_of (save_dir scenario_tool) "images/a.png" = None →
   w_dirs (mkWorld ∅ (w_dirs scenario_world_top) 0)
     !! mask_path_of (save_dir scenario_tool) "images/a.png" = None →
   initialize_mask scenario_tool (mkWorld ∅ (w_dirs scenario_world_top) 0)
     = Raise AttributeError (mkWorld ∅ (w_dirs scenario_world_top) 0)).
Proof.
  apply (unreadable_picture_is_fatal scenario_tool
           (mkWorld ∅ (w_dirs scenario_world_top) 0) "images/a.png" []).
  - reflexivity.
  - reflexivity.
Defined.

(** X13. While the session waits for a key: the index is a valid position
    in the list of pictures, the brush size lies in [0,50] and is the
    position of the trackbar, the mask buffer matches its size, the current
    picture is readable and the mask has its height and width, and
    [mask_path] is the mask file of the current picture. *)
Theorem waiting_session_invariant w0 t w :
  at_key w0 t w →
  0 <= index t < Z.of_nat (length (img_files t)) ∧
  0 <= brush_size t <= 50 ∧
  w_trackbar w = brush_size t ∧
  well_formed (mask t) ∧
  ∃ f img,
    current_image t = inr f ∧
    mask_path t = mask_path_of (save_dir t) f ∧
    imread_in (w_files w) f = Some img ∧
    shape (mask t) = shape img.
Proof.
  intros Hk. apply at_key_inv in Hk
    as [((Hb & Hwf & Hi & f & Hf & Hp) & Htb & f' & img & Hf' & Him & Hs) _].
  assert (f' = f) as -> by congruence.
  split; [done|]. split; [done|]. split; [done|]. split; [done|].
  by exists f, img.
Qed.

Lemma waiting_session_invariant_witness :
  0 <= index scenario_tool < Z.of_nat (length (img_files scenario_tool)) ∧
  0 <= brush_size scenario_tool <= 50 ∧
  w_trackbar scenario_world_key = brush_size scenario_tool ∧
  well_formed (mask scenario_tool) ∧
  ∃ f img,
    current_image scenario_tool = inr f ∧
    mask_path scenario_tool = mask_path_of (save_dir scenario_tool) f ∧
    imread_in (w_files scenario_world_key) f = Some img ∧
    shape (mask scenario_tool) = shape img.
Proof.
  apply (waiting_session_invariant scenario_world scenario_tool scenario_world_key).
  exact scenario_at_key.
Defined.

(** ** The mask file of a picture *)

Lemma string_of_list_ascii_inj_l s l :
  list_ascii_of_string s = l → s = string_of_list_ascii l.
Proof. intros <-. by rewrite string_of_list_ascii_of_string. Qed.

Lemma basename_path_join d n :
  n ≠ ""%string → slash ∉ list_ascii_of_string n →
  basename (path_join d n) = n.
Proof.
  intros Hn Hs. unfold basename, path_join.
  assert (starts_with slash n = false) as ->.
  { destruct n as [|a n]; [done|]. simpl in *.
    apply not_elem_of_cons in Hs as [Hne _].
    destruct (Ascii.eqb_spec a slash); congruence. }
  destruct (String.eqb_spec d "") as [->|Hd]; simpl.
  - rewrite rfind_absent by done. simpl. apply string_of_list_ascii_of_string.
  - unfold ends_with.
    destruct (rev (list_ascii_of_string d)) as [|a r] eqn:Hrev.
    + apply (f_equal (@rev ascii)) in Hrev. rewrite rev_involutive in Hrev.
      simpl in Hrev. destruct d; done.
    + apply (f_equal (@rev ascii)) in Hrev. rewrite rev_involutive in Hrev.
      simpl in Hrev.
      destruct (Ascii.eqb_spec a slash) as [->|Hne].
      * rewrite list_ascii_app, Hrev, <- app_assoc. simpl.
        rewrite rfind_last by done.
        replace (Z.to_nat (Z.of_nat (length (rev r)) + 1))
          with (length (rev r ++ [slash])) by (rewrite length_app; simpl; lia).
        change (rev r ++ slash :: list_ascii_of_string n)
          with (rev r ++ [slash] ++ list_ascii_of_string n).
        rewrite app_assoc, drop_app_length.
        apply string_of_list_ascii_of_string.
      * rewrite !list_ascii_app. simpl. rewrite rfind_last by done.
        replace (Z.to_nat (Z.of_nat (length (list_ascii_of_string d)) + 1))
          with (length (list_ascii_of_string d ++ [slash]))
          by (rewrite length_app; simpl; lia).
        rewrite (cons_middle "/"%char (list_ascii_of_string d)
                   (list_ascii_of_string n)), app_assoc.
        change ["/"%char] with [slash]. rewrite drop_app_length.
        apply string_of_list_ascii_of_string.
Qed.

Lemma splitext_plain stem ext :
  slash ∉ list_ascii_of_string stem →
  existsb (λ a, negb (Ascii.eqb a dot)) (list_ascii_of_string stem) = true →
  dot ∉ list_ascii_of_string ext → slash ∉ list_ascii_of_string ext →
  splitext (stem +:+ "." +:+ ext) = (stem, "." +:+ ext).
Proof.
  intros Hs Hnd He Hse. unfold splitext. rewrite !list_ascii_app. simpl.
  change (String.String "." ext) with ("." +:+ ext).
  rewrite (rfind_last dot) by done.
  rewrite (rfind_absent slash).
  2:{ rewrite not_elem_of_app, not_elem_of_cons. done. }
  assert ((-1 <? Z.of_nat (length (list_ascii_of_string stem))) = true) as ->
    by (apply Z.ltb_lt; lia).
  simpl. rewrite drop_0, Z.sub_0_r, Nat2Z.id, take_app_length, Hnd. simpl.
  rewrite drop_app_length. simpl.
  by rewrite !string_of_list_ascii_of_string.
Qed.

(** X14. The mask file of a picture [stem.ext] of any directory is
    [stem.npy] in the save directory, for a stem without slash that is not
    made of dots only and an extension without dot or slash: the directory of
    the picture and its extension play no part, so pictures that differ only
    in them share one mask file. *)
Theorem mask_path_of_plain_name sd d stem ext :
  slash ∉ list_ascii_of_string stem →
  existsb (λ a, negb (Ascii.eqb a dot)) (list_ascii_of_string stem) = true →
  dot ∉ list_ascii_of_string ext → slash ∉ list_ascii_of_string ext →
  mask_path_of sd (path_join d (stem +:+ "." +:+ ext))
  = path_join sd (stem +:+ ".npy").
Proof.
  intros Hs Hnd He Hse. unfold mask_path_of.
  rewrite basename_path_join.
  - by rewrite splitext_plain.
  - destruct stem; [done|]. done.
  - rewrite !list_ascii_app. simpl.
    rewrite not_elem_of_app, not_elem_of_cons. done.
Qed.

Lemma mask_path_of_plain_name_witness :
  mask_path_of "outputs" (path_join "images" ("a.b" +:+ "." +:+ "png"))
  = path_join "outputs" ("a.b" +:+ ".npy").
Proof.
  apply (mask_path_of_plain_name "outputs" "images" "a.b" "png").
  - vm_compute. intros H. repeat (apply elem_of_cons in H as [H|H]; [discriminate|]).
    by apply elem_of_nil in H.
  - reflexivity.
  - vm_compute. intros H. repeat (apply elem_of_cons in H as [H|H]; [discriminate|]).
    by apply elem_of_nil in H.
  - vm_compute. intros H. repeat (apply elem_of_cons in H as [H|H]; [discriminate|]).
    by apply elem_of_nil in H.
Defined.
